(** * videoPano: the capture-to-panorama pipeline

    A shallow embedding of
      - [src/hooks/useStitcher.ts]   (the [stitchFrames] callback),
      - [src/components/PanoramaCapture.tsx] (the [startCapture] handler),
      - [src/hooks/useCamera.ts]     (the [captureFrame] callback),
    followed by the properties of the pipeline stated in the specification.

    Conventions.
      - A React state setter is a write to a field of the hook's state; the
        sequence of non-null [setProgress] calls is kept as the emitted
        trace of the operation.
      - A rejected promise / thrown exception is the [Throw] completion.
      - JavaScript numbers that hold pixel counts and loop indices are
        naturals. The progress percentages, which the source computes with
        [/], [*] and [+] on numbers, are doubles: a finite double is the
        rational it denotes, and [Binary64] gives each operation as the
        exact result rounded to the nearest double, ties to even.
        [Hardware] evaluates the same expressions on the machine's floats.
      - OpenCV.js and the browser are external: what the source calls on
        them is a field of [OpenCV] or [Browser]; the [cv.Mat] buffer
        operations used by the concatenation path are given their
        pixel-level meaning in the section on matrices. *)

From Stdlib Require Import QArith Qround Qpower Lqa Floats.
From Stdlib.Strings Require Import Byte.
From stdpp Require Import base list list_numbers strings pretty.
Close Scope Q_scope.

(** ** Completions of JavaScript code *)

Inductive Thrown : Type :=
| JsError (msg : string)
| JsOther (what : string).

Inductive Completion (A : Type) : Type :=
| Return (a : A)
| Throw (e : Thrown).

Arguments Return {A} a.
Arguments Throw {A} e.

Definition is_Return {A} (c : Completion A) : bool :=
  match c with Return _ => true | Throw _ => false end.

(** [err instanceof Error ? err.message : fallback] *)
Definition message_or (fallback : string) (err : Thrown) : string :=
  match err with JsError m => m | JsOther _ => fallback end.

(** ** A state-and-trace monad for handlers

    [St] is the component state the handler writes, [Ev] the type of the
    effects it emits to its observers. *)

Definition M (St Ev A : Type) : Type := St -> Completion A * St * list Ev.

Section HandlerMonad.
Context {St Ev : Type}.

Definition ret {A} (a : A) : M St Ev A := fun s => (Return a, s, []).

Definition throw {A} (e : Thrown) : M St Ev A := fun s => (Throw e, s, []).

Definition bind {A B} (m : M St Ev A) (k : A -> M St Ev B) : M St Ev B :=
  fun s =>
    match m s with
    | (Return a, s1, t1) => let '(r, s2, t2) := k a s1 in (r, s2, t1 ++ t2)
    | (Throw e, s1, t1) => (Throw e, s1, t1)
    end.

(** [try { m } catch (err) { h err }] *)
Definition try_catch {A} (m : M St Ev A) (h : Thrown -> M St Ev A) : M St Ev A :=
  fun s =>
    match m s with
    | (Return a, s1, t1) => (Return a, s1, t1)
    | (Throw e, s1, t1) => let '(r, s2, t2) := h e s1 in (r, s2, t1 ++ t2)
    end.

(** [try { m } finally { f }]: [f] runs on both exits and keeps the
    completion of [m] unless [f] itself throws. *)
Definition try_finally {A} (m : M St Ev A) (f : M St Ev unit) : M St Ev A :=
  fun s =>
    let '(r, s1, t1) := m s in
    match f s1 with
    | (Return _, s2, t2) => (r, s2, t1 ++ t2)
    | (Throw e, s2, t2) => (Throw e, s2, t1 ++ t2)
    end.

Definition modify (f : St -> St) : M St Ev unit := fun s => (Return tt, f s, []).

Definition emit (e : Ev) : M St Ev unit := fun s => (Return tt, s, [e]).

(** the completion of a call into an external library *)
Definition lift {A} (c : Completion A) : M St Ev A := fun s => (c, s, []).

End HandlerMonad.

#[global] Instance M_ret {St Ev} : MRet (M St Ev) := @ret St Ev.
#[global] Instance M_bind {St Ev} : MBind (M St Ev) := fun A B k m => bind m k.

(** the three components of a run *)
Definition outcome {St Ev A} (r : Completion A * St * list Ev) : Completion A := r.1.1.
Definition final {St Ev A} (r : Completion A * St * list Ev) : St := r.1.2.
Definition trace {St Ev A} (r : Completion A * St * list Ev) : list Ev := r.2.

(** a natural number as a JavaScript number; array lengths and indices
    are below 2^32 and so are doubles *)
Definition num (n : nat) : Q := inject_Z (Z.of_nat n).

(** ** Arithmetic on doubles

    IEEE 754 binary64, round to nearest, ties to even: 53 significant
    bits, subnormal numbers down to 2^-1074. Overflow to an infinity is
    left out; the operands met here stay below 2^1024. *)

Module Binary64.

(** [floor (log2 q)] for a positive [q] *)
Definition ilog2 (q : Q) : Z :=
  let k := (Z.log2 (Qnum q) - Z.log2 (Zpos (Qden q)))%Z in
  if Qle_bool (2 ^ k) q then k else (k - 1)%Z.

(** the exponent of the last place of the doubles next to a positive
    [q]: 53 significant bits, and no exponent below that of the
    subnormal numbers *)
Definition quantum (q : Q) : Z := Z.max (ilog2 q - 52) (-1074).

(** the nearest integer, the even one of two equally near *)
Definition nearest_even (x : Q) : Z :=
  let f := Qfloor x in
  match (x - inject_Z f ?= 1 # 2)%Q with
  | Lt => f
  | Gt => (f + 1)%Z
  | Eq => if Z.even f then f else (f + 1)%Z
  end.

(** the double nearest to [q] *)
Definition round (q : Q) : Q :=
  match Qnum q with
  | Z0 => 0
  | Zpos _ =>
      let e := quantum q in Qred (inject_Z (nearest_even (q / 2 ^ e)) * 2 ^ e)
  | Zneg _ =>
      let e := quantum (- q) in Qred (- (inject_Z (nearest_even (- q / 2 ^ e)) * 2 ^ e))
  end%Q.

(** [x + y], [x * y] and [x / y] on numbers *)
Definition add (x y : Q) : Q := round (x + y).
Definition mul (x y : Q) : Q := round (x * y).
Definition div (x y : Q) : Q := round (x / y).

End Binary64.

Arguments Binary64.round : simpl never.
Arguments Binary64.add : simpl never.
Arguments Binary64.mul : simpl never.
Arguments Binary64.div : simpl never.

(** ** [cv.Mat]: 8-bit, 4-channel matrices *)

Definition Pixel : Type := byte * byte * byte * byte.

(** [new cv.Scalar(0, 0, 0, 255)] *)
Definition opaque_black : Pixel := (x00, x00, x00, xff).

Record Mat := mkMat { rows : nat; cols : nat; data : list (list Pixel) }.

Record Rect := mkRect { rect_x : nat; rect_y : nat; rect_width : nat; rect_height : nat }.

(** the buffer has [rows] rows of [cols] pixels each *)
Definition wf_mat (m : Mat) : Prop :=
  length (data m) = rows m /\ Forall (fun row => length row = cols m) (data m).

Definition wf_matb (m : Mat) : bool :=
  (length (data m) =? rows m) && forallb (fun row => length row =? cols m) (data m).

(** the pixel in column [x] of row [y] *)
Definition pixel (m : Mat) (x y : nat) : option Pixel :=
  data m !! y ≫= (fun row => row !! x).

(** [new cv.Mat(rows, cols, cv.CV_8UC4)] *)
Definition Mat_new (r c : nat) : Mat :=
  mkMat r c (replicate r (replicate c (x00, x00, x00, x00))).

(** [m.setTo(s)] *)
Definition setTo (m : Mat) (s : Pixel) : Mat :=
  mkMat (rows m) (cols m) ((fun row : list Pixel => (fun _ : Pixel => s) <$> row) <$> data m).

Definition in_rect (r : Rect) (x y : nat) : bool :=
  (rect_x r <=? x) && (x <? rect_x r + rect_width r) &&
  (rect_y r <=? y) && (y <? rect_y r + rect_height r).

(** [m.roi(r)]: a header on the part of [m]'s buffer inside [r]; OpenCV
    raises when [r] leaves the matrix. The header is represented by its
    rectangle; writes through it go to the parent, see [copyTo]. *)
Definition roi (m : Mat) (r : Rect) : Completion Rect :=
  if (rect_x r + rect_width r <=? cols m) && (rect_y r + rect_height r <=? rows m)
  then Return r
  else Throw (JsOther "cv::Exception").

(** [src.copyTo(view)] where [view] is a header of [parent] with the size
    and type of [src]: the pixels of [src] overwrite that part of the
    parent's buffer, everything else is left as it was. *)
Definition copyTo (src : Mat) (view : Rect) (parent : Mat) : Mat :=
  mkMat (rows parent) (cols parent)
    (imap (fun y row =>
       imap (fun x p =>
         if in_rect view x y
         then default p (pixel src (x - rect_x view) (y - rect_y view))
         else p) row) (data parent)).

(** ** The external collaborators *)

(** The [cv] object of OpenCV.js, as far as [stitchFrames] uses it.
    [imread] is applied to the image element decoded from a frame's data
    URL, which stands for the element here. [Stitcher_create] is [None]
    when the build has no stitching module ([cv.Stitcher_create] is
    undefined); when present, the stitcher made for a mode maps the images
    to a status and the panorama written to its output argument. The
    constants [Stitcher_PANORAMA] and [Stitcher_OK] are [None] when
    undefined. *)
Record OpenCV := mkOpenCV {
  imread : string -> Completion Mat;
  Stitcher_create : option (Z -> list Mat -> Completion (Z * Mat));
  Stitcher_PANORAMA : option Z;
  Stitcher_OK : option Z;
  resize : Mat -> nat * nat -> Completion Mat;
  imencode : string -> Mat -> Completion (list byte)
}.

(** [image_loads src]: the [Image] with this source fires [onload]
    rather than [onerror]. [max_arguments] is the largest number of
    arguments the engine accepts in one call, and [range_error] the
    message of the RangeError it raises beyond that. [btoa] is applied to
    strings of characters below 256 only, on which it does not raise. *)
Record Browser := mkBrowser {
  image_loads : string -> bool;
  max_arguments : nat;
  range_error : string;
  btoa : string -> string
}.

(** [String.fromCharCode(...bytes)]: the spread passes one argument per
    byte *)
Definition fromCharCode (br : Browser) (bytes : list byte) : Completion string :=
  if length bytes <=? max_arguments br then Return (String.string_of_list_byte bytes)
  else Throw (JsError (range_error br)).

(** ** [useStitcher.ts] *)

Module UseStitcher.

(** the [stage] union of [StitchProgress], in the order it is declared *)
Inductive Stage : Type :=
| loading | preprocessing | detecting | matching | warping | blending | complete.

Definition stage_index (s : Stage) : nat :=
  match s with
  | loading => 0 | preprocessing => 1 | detecting => 2 | matching => 3
  | warping => 4 | blending => 5 | complete => 6
  end.

#[global] Instance Stage_eq_dec : EqDecision Stage.
Proof. solve_decision. Defined.

Record StitchProgress := mkProgress { stage : Stage; progress : Q; message : string }.

(** The state variables of the hook: [isStitching], [progress] (here
    [current]) and [error]; [pendingResets] holds the delay of every
    [setTimeout(() => setProgress(null), delay)] that has been scheduled. *)
Record HookState := mkHook {
  isStitching : bool;
  current : option StitchProgress;
  error : option string;
  pendingResets : list nat
}.

Abbreviation Handler := (M HookState StitchProgress).

Definition setIsStitching (b : bool) : Handler unit :=
  modify (fun s => mkHook b (current s) (error s) (pendingResets s)).

Definition setError (e : option string) : Handler unit :=
  modify (fun s => mkHook (isStitching s) (current s) e (pendingResets s)).

(** [setProgress({...})]: the state is written and the event is observed *)
Definition setProgress (p : StitchProgress) : Handler unit :=
  modify (fun s => mkHook (isStitching s) (Some p) (error s) (pendingResets s));;
  emit p.

Definition scheduleProgressReset (delay : nat) : Handler unit :=
  modify (fun s => mkHook (isStitching s) (current s) (error s) (pendingResets s ++ [delay])).

(** The loading loop, from index [i] on: [rest] are [frames[i..]], [n] is
    [frames.length], [images] the matrices pushed so far. *)
Fixpoint load_frames (br : Browser) (cv : OpenCV) (n i : nat) (rest : list string)
    (images : list Mat) : Handler (list Mat) :=
  match rest with
  | [] => mret images
  | src :: rest' =>
      if image_loads br src then
        mat ← lift (imread cv src);
        setProgress
          {| stage := preprocessing;
             progress := Binary64.add 10 (Binary64.mul (Binary64.div (num i) (num n)) 20);
             message := "Loading frame " +:+ pretty (i + 1) +:+ "/" +:+ pretty n +:+ "..." |};;
        load_frames br cv n (S i) rest' (images ++ [mat])
      else throw (JsError ("Failed to load frame " +:+ pretty (i + 1)))
  end.

(** [totalWidth] and [maxHeight] after the [forEach] *)
Definition total_dimensions (images : list Mat) : nat * nat :=
  fold_left
    (fun '(totalWidth, maxHeight) img => (totalWidth + cols img, Nat.max maxHeight (rows img)))
    images (0, 0).

(** The concatenation loop, from index [i] on: [rest] are [images[i..]],
    [n] is [images.length]. *)
Fixpoint place_frames (n i xOffset : nat) (rest : list Mat) (result : Mat) : Handler Mat :=
  match rest with
  | [] => mret result
  | img :: rest' =>
      view ← lift (roi result (mkRect xOffset 0 (cols img) (rows img)));
      let result := copyTo img view result in
      setProgress
        {| stage := warping;
           progress := Binary64.add 50 (Binary64.mul (Binary64.div (num i) (num n)) 30);
           message := "Stitching frame " +:+ pretty (i + 1) +:+ "/" +:+ pretty n +:+ "..." |};;
      place_frames n (S i) (xOffset + cols img) rest' result
  end.

(** the [else] branch: simple horizontal concatenation *)
Definition concatenate (images : list Mat) : Handler Mat :=
  setProgress {| stage := warping; progress := 50; message := "Arranging frames..." |};;
  let '(totalWidth, maxHeight) := total_dimensions images in
  let result := setTo (Mat_new maxHeight totalWidth) opaque_black in
  place_frames (length images) 0 0 images result.

(** [status === cv.Stitcher_OK] *)
Definition is_OK (cv : OpenCV) (status : Z) : bool :=
  match Stitcher_OK cv with
  | Some ok => (status =? ok)%Z
  | None => false
  end.

(** the [if] branch: [cv.Stitcher] *)
Definition run_stitcher (cv : OpenCV) (create : Z -> list Mat -> Completion (Z * Mat))
    (mode : Z) (images : list Mat) : Handler Mat :=
  '(status, pano) ← lift (create mode images);
  if is_OK cv status then mret pano
  else throw (JsError ("Stitching failed with status: " +:+ pretty status)).

Definition compose (cv : OpenCV) (images : list Mat) : Handler Mat :=
  match Stitcher_create cv, Stitcher_PANORAMA cv with
  | Some create, Some mode => run_stitcher cv create mode images
  | _, _ => concatenate images
  end.

(** [Math.floor(targetWidth / 2)]; halving a width is exact on doubles *)
Definition half_floor (targetWidth : nat) : nat :=
  Z.to_nat (Qfloor (num targetWidth / 2)).

(** conversion to the 2:1 equirectangular raster *)
Definition convert (cv : OpenCV) (result : Mat) : Completion Mat :=
  let targetWidth := cols result in
  let targetHeight := half_floor targetWidth in
  resize cv result (targetWidth, targetHeight).

(** [cv.imencode], then [btoa(String.fromCharCode(...))] and the data URL *)
Definition encode (br : Browser) (cv : OpenCV) (equirect : Mat) : Completion string :=
  match imencode cv ".png" equirect with
  | Return encoded =>
      match fromCharCode br encoded with
      | Return chars => Return ("data:image/png;base64," +:+ btoa br chars)
      | Throw e => Throw e
      end
  | Throw e => Throw e
  end.

(** the inner [try] block; its [catch] logs and rethrows *)
Definition stitch_block (br : Browser) (cv : OpenCV) (images : list Mat) : Handler string :=
  try_catch
    (result ← compose cv images;
     setProgress {| stage := blending; progress := 80; message := "Blending seams..." |};;
     setProgress {| stage := complete; progress := 100; message := "Complete!" |};;
     equirect ← lift (convert cv result);
     lift (encode br cv equirect))
    (fun stitchError => throw stitchError).

(** the outer [try] block *)
Definition pipeline (br : Browser) (cv : OpenCV) (frames : list string) : Handler string :=
  setProgress {| stage := preprocessing; progress := 10; message := "Preprocessing frames..." |};;
  images ← load_frames br cv (length frames) 0 frames [];
  setProgress {| stage := detecting; progress := 30; message := "Detecting features..." |};;
  stitch_block br cv images.

(** [stitchFrames], given what [useOpenCV] returned: [isLoaded] and the
    [cv] object, [None] when it is null. *)
Definition stitchFrames (br : Browser) (isLoaded : bool) (cv : option OpenCV)
    (frames : list string) : Handler string :=
  match isLoaded, cv with
  | true, Some cv =>
      if length frames <? 2 then throw (JsError "Need at least 2 frames to stitch")
      else
        setIsStitching true;;
        setError None;;
        setProgress {| stage := loading; progress := 0; message := "Loading frames..." |};;
        try_finally
          (try_catch (pipeline br cv frames)
             (fun err => setError (Some (message_or "Stitching failed" err));; throw err))
          (setIsStitching false;; scheduleProgressReset 2000)
  | _, _ => throw (JsError "OpenCV not loaded")
  end.

(** the two rejections raised before the [try] *)
Definition EngineNotLoaded : Thrown := JsError "OpenCV not loaded".
Definition InsufficientFrames : Thrown := JsError "Need at least 2 frames to stitch".

End UseStitcher.

(** ** [useCamera.ts]: [captureFrame] *)

Module UseCamera.

(** What [captureFrame] finds when it is called: whether [videoRef] and
    [canvasRef] are set, the video's [readyState], whether the canvas
    hands out a 2d context, and the data URL [canvas.toDataURL] would
    produce for the frame drawn. *)
Record Snapshot := mkSnapshot {
  video : bool;
  canvas : bool;
  readyState : nat;
  context2d : bool;
  toDataURL : string
}.

Definition HAVE_ENOUGH_DATA : nat := 4.

Definition captureFrame (v : Snapshot) : option string :=
  if negb (video v) || negb (canvas v) || negb (readyState v =? HAVE_ENOUGH_DATA)
  then None
  else if negb (context2d v) then None
  else Some (toDataURL v).

End UseCamera.

(** ** [PanoramaCapture.tsx]: [startCapture] *)

Module PanoramaCapture.

Record CaptureState := mkCapture {
  isCapturing : bool;
  progress : Q;
  countdown : option nat;
  frames : list string
}.

(** what the handler does to the outside: awaited timers, calls of
    [captureFrame], and the two callbacks of the component's props *)
Inductive Effect : Type :=
| Sleep (ms : Q)
| CaptureFrame (slot : nat)
| OnFramesCaptured (frames : list string)
| OnError (msg : string).

Abbreviation Handler := (M CaptureState Effect).

Definition setIsCapturing (b : bool) : Handler unit :=
  modify (fun s => mkCapture b (progress s) (countdown s) (frames s)).

Definition setProgress (p : Q) : Handler unit :=
  modify (fun s => mkCapture (isCapturing s) p (countdown s) (frames s)).

Definition setCountdown (c : option nat) : Handler unit :=
  modify (fun s => mkCapture (isCapturing s) (progress s) c (frames s)).

Definition setFrames (fs : list string) : Handler unit :=
  modify (fun s => mkCapture (isCapturing s) (progress s) (countdown s) fs).

Definition sleep (ms : Q) : Handler unit := emit (Sleep ms).

(** [if (frame)]: null and the empty string are falsy; the result is the
    frame when the test passes *)
Definition truthy (frame : option string) : option string :=
  match frame with
  | Some s => if String.eqb s "" then None else Some s
  | None => None
  end.

(** [for (let i = 3; i > 0; i--)] *)
Fixpoint countdown_loop (i : nat) : Handler unit :=
  match i with
  | 0 => mret tt
  | S i' => sleep 1000;; setCountdown (Some i');; countdown_loop i'
  end.

(** The capture loop, from slot [i] on; [todo] is [frameCount - i].
    [camera i] is what the camera holds when slot [i] fires. *)
Fixpoint capture_loop (camera : nat -> UseCamera.Snapshot) (frameCount : nat) (interval : Q)
    (todo i : nat) (capturedFrames : list string) : Handler (list string) :=
  match todo with
  | 0 => mret capturedFrames
  | S todo' =>
      emit (CaptureFrame i);;
      let frame := UseCamera.captureFrame (camera i) in
      capturedFrames ←
        match truthy frame with
        | Some frame => let pushed := capturedFrames ++ [frame] in
                        setFrames pushed;; mret pushed
        | None => mret capturedFrames
        end;
      setProgress (Binary64.mul (Binary64.div (num (i + 1)) (num frameCount)) 100);;
      (if i <? frameCount - 1 then sleep interval else mret tt);;
      capture_loop camera frameCount interval todo' (S i) capturedFrames
  end.

(** the handler after the [isActive] guard, for given capture parameters *)
Definition capture_session (camera : nat -> UseCamera.Snapshot) (duration : Q)
    (frameCount : nat) : Handler unit :=
  setIsCapturing true;;
  setProgress 0;;
  setFrames [];;
  setCountdown (Some 3);;
  countdown_loop 3;;
  setCountdown None;;
  let interval := Binary64.div duration (num frameCount) in
  capturedFrames ← capture_loop camera frameCount interval frameCount 0 [];
  setIsCapturing false;;
  if 2 <=? length capturedFrames
  then emit (OnFramesCaptured capturedFrames)
  else emit (OnError "Failed to capture enough frames").

Definition startCapture (isActive : bool) (camera : nat -> UseCamera.Snapshot) : Handler unit :=
  if negb isActive then emit (OnError "Camera not ready")
  else capture_session camera 12000 18.

End PanoramaCapture.

(** ** Vocabulary of the statements *)

(** the column at which frame [i] starts: the widths of the frames before it *)
Definition x_offset (images : list Mat) (i : nat) : nat :=
  sum_list (cols <$> take i images).

(** the region of the canvas that frame [i] is copied to *)
Definition region (images : list Mat) (i : nat) (img : Mat) : Rect :=
  mkRect (x_offset images i) 0 (cols img) (rows img).

(** what the concatenation loop leaves in [result], without the progress
    reports *)
Fixpoint paste (xOffset : nat) (rest : list Mat) (result : Mat) : Mat :=
  match rest with
  | [] => result
  | img :: rest' =>
      paste (xOffset + cols img) rest'
        (copyTo img (mkRect xOffset 0 (cols img) (rows img)) result)
  end.

Definition composite (images : list Mat) : Mat :=
  paste 0 images
    (setTo (Mat_new (UseStitcher.total_dimensions images).2
                    (UseStitcher.total_dimensions images).1) opaque_black).

(** the hook state after a sequence of progress reports *)
Definition observed (evs : list UseStitcher.StitchProgress) (s : UseStitcher.HookState)
    : UseStitcher.HookState :=
  fold_left
    (fun s e => UseStitcher.mkHook (UseStitcher.isStitching s) (Some e)
                  (UseStitcher.error s) (UseStitcher.pendingResets s))
    evs s.

(** what an observer reads off a progress report: its stage and percentage *)
Definition checkpoint (e : UseStitcher.StitchProgress) : UseStitcher.Stage * Q :=
  (UseStitcher.stage e, UseStitcher.progress e).

(** [10 + (i / frames.length) * 20], the percentage reported when frame
    [i] of [n] has been loaded *)
Definition load_percent (i n : nat) : Q :=
  Binary64.add 10 (Binary64.mul (Binary64.div (num i) (num n)) 20).

(** [50 + (i / images.length) * 30], the percentage reported when frame
    [i] of [n] has been placed *)
Definition place_percent (i n : nat) : Q :=
  Binary64.add 50 (Binary64.mul (Binary64.div (num i) (num n)) 30).

(** a list of stages that never steps back in the declared order *)
Definition ascending (stages : list UseStitcher.Stage) : Prop :=
  forall i j a b, i <= j -> stages !! i = Some a -> stages !! j = Some b ->
    UseStitcher.stage_index a <= UseStitcher.stage_index b.

(** ascending, with every stage between positions [lo] and [hi] *)
Definition bounded (lo hi : nat) (l : list UseStitcher.Stage) : Prop :=
  ascending l /\ Forall (fun a => lo <= UseStitcher.stage_index a <= hi) l.

(** stages never go backwards along a trace *)
Definition forward (evs : list UseStitcher.StitchProgress) : Prop :=
  ascending (UseStitcher.stage <$> evs).

Definition visits (evs : list UseStitcher.StitchProgress) (st : UseStitcher.Stage) : Prop :=
  st ∈ UseStitcher.stage <$> evs.

(** the stitching capability probed by [stitchFrames] *)
Definition stitcher_available (cv : OpenCV) : bool :=
  match Stitcher_create cv, Stitcher_PANORAMA cv with
  | Some _, Some _ => true
  | _, _ => false
  end.


(** [resize] honours the requested size whenever it returns *)
Definition resize_to_dsize (cv : OpenCV) : Prop :=
  forall src w h dst, resize cv src (w, h) = Return dst -> cols dst = w /\ rows dst = h.

(** the results of [captureFrame] over the slots of a run *)
Definition shots (camera : nat -> UseCamera.Snapshot) (frameCount : nat) : list (option string) :=
  (fun i => UseCamera.captureFrame (camera i)) <$> seq 0 frameCount.

Definition is_callback (e : PanoramaCapture.Effect) : bool :=
  match e with
  | PanoramaCapture.OnFramesCaptured _ | PanoramaCapture.OnError _ => true
  | _ => false
  end.

Definition is_capture_call (e : PanoramaCapture.Effect) : bool :=
  match e with PanoramaCapture.CaptureFrame _ => true | _ => false end.

(** ** The percentages on the machine's floats *)

Module Hardware.

Definition of_nat (n : nat) : float := PrimFloat.of_uint63 (Uint63.of_Z (Z.of_nat n)).

(** the rational a finite float denotes, in lowest terms *)
Definition value (f : float) : option Q :=
  match Prim2SF f with
  | S754_zero _ => Some 0%Q
  | S754_finite s m e => Some (Qred ((if s then -1 else 1) * inject_Z (Z.pos m) * 2 ^ e)%Q)
  | _ => None
  end.

Definition same (f : float) (q : Q) : bool :=
  match value f with
  | Some v => (Qnum v =? Qnum q)%Z && (Qden v =? Qden q)%positive
  | None => false
  end.

(** [10 + (i / frames.length) * 20] *)
Definition load_percent (i n : nat) : float := (10 + (of_nat i / of_nat n) * 20)%float.

(** [50 + (i / images.length) * 30] *)
Definition place_percent (i n : nat) : float := (50 + (of_nat i / of_nat n) * 30)%float.

(** for [n] frames: the floats are the doubles of [Binary64] *)
Definition agree (n : nat) : bool :=
  forallb (fun i => same (load_percent i n)
                      (Binary64.add 10 (Binary64.mul (Binary64.div (num i) (num n)) 20)) &&
                    same (place_percent i n)
                      (Binary64.add 50 (Binary64.mul (Binary64.div (num i) (num n)) 30)))
    (seq 0 n).

(** single operations: an inexact quotient, subnormal results, ties, a
    product that needs 54 bits, a negative quotient *)
Definition roundings : list bool :=
  [ same (of_nat 1 / of_nat 3) (Binary64.div 1 3);
    same (Z.ldexp 1 (-1074) / of_nat 3) (Binary64.div (2 ^ (-1074)) 3);
    same (Z.ldexp 1 (-1074) / of_nat 2) (Binary64.div (2 ^ (-1074)) 2);
    same (Z.ldexp 3 (-1074) / of_nat 2) (Binary64.div (3 * 2 ^ (-1074)) 2);
    same (Z.ldexp 5 (-1074) / of_nat 2) (Binary64.div (5 * 2 ^ (-1074)) 2);
    same (of_nat 3 * Z.ldexp 6004799503160661 1) (Binary64.mul 3 (6004799503160661 * 2));
    same (of_nat 1 + Z.ldexp 1 (-53)) (Binary64.add 1 (2 ^ (-53)));
    same (of_nat 1 + Z.ldexp 3 (-53)) (Binary64.add 1 (3 * 2 ^ (-53)));
    same (- of_nat 1 / of_nat 7) (Binary64.div (-1) 7) ]%float%Q.

End Hardware.

(** ** A small engine to run the model on *)

Module Demo.

Definition grey (b : byte) : Pixel := (b, b, b, xff).

(** a 2x1 and a 1x2 frame *)
Definition frameA : Mat := mkMat 1 2 [[grey x10; grey x20]].
Definition frameB : Mat := mkMat 2 1 [[grey x30]; [grey x40]].

Definition demo_imread (src : string) : Completion Mat :=
  if String.eqb src "A" then Return frameA
  else if String.eqb src "B" then Return frameB
  else Throw (JsOther "imread").

(** nearest-neighbour resampling, refusing empty sizes *)
Definition nearest (src : Mat) (dsize : nat * nat) : Completion Mat :=
  let '(w, h) := dsize in
  if (w =? 0) || (h =? 0) || (cols src =? 0) || (rows src =? 0)
  then Throw (JsOther "cv::Exception")
  else Return (mkMat h w
         ((fun y => (fun x => default opaque_black
                                (pixel src (x * cols src / w) (y * rows src / h)))
                    <$> seq 0 w) <$> seq 0 h)).

Definition raw_bytes (ext : string) (m : Mat) : Completion (list byte) :=
  Return (concat ((fun p : Pixel => let '(r, g, b, a) := p in [r; g; b; a]) <$> concat (data m))).

(** a build without the stitching module *)
Definition plain_cv : OpenCV :=
  mkOpenCV demo_imread None None None nearest raw_bytes.


(** every image loads, 4096 arguments fit in a call, [btoa] leaves its
    argument as it is *)
Definition browser : Browser :=
  mkBrowser (fun _ => true) 4096 "Maximum call stack size exceeded" (fun chars => chars).


Definition idle : UseStitcher.HookState := UseStitcher.mkHook false None None [].

Definition snap (ready : bool) (i : nat) : UseCamera.Snapshot :=
  UseCamera.mkSnapshot true true (if ready then 4 else 2) true ("data:image/jpeg;base64," +:+ pretty i).

Definition steady_camera : nat -> UseCamera.Snapshot := snap true.

(** a camera that has a frame on every third slot only *)
Definition slow_camera : nat -> UseCamera.Snapshot := fun i => snap (i mod 3 =? 0) i.

(** a camera that has a frame on slot 0 only *)
Definition stalled_camera : nat -> UseCamera.Snapshot := fun i => snap (i =? 0) i.

Definition at_rest : PanoramaCapture.CaptureState := PanoramaCapture.mkCapture false 0 None [].

End Demo.

(** * Properties *)

(** ** Runs of handlers *)

Section Runs.
Context {St Ev : Type}.
Implicit Types s : St.

Lemma run_bind_Return {A B} (m : M St Ev A) (k : A -> M St Ev B) s a s1 t1 :
  m s = (Return a, s1, t1) ->
  (m ≫= k) s = (outcome (k a s1), final (k a s1), t1 ++ trace (k a s1)).
Proof.
  intros Hm. unfold mbind, M_bind, bind. rewrite Hm.
  destruct (k a s1) as [[r s2] t2]. reflexivity.
Qed.

Lemma run_bind_Throw {A B} (m : M St Ev A) (k : A -> M St Ev B) s e s1 t1 :
  m s = (Throw e, s1, t1) -> (m ≫= k) s = (Throw e, s1, t1).
Proof. intros Hm. unfold mbind, M_bind, bind. now rewrite Hm. Qed.

End Runs.

(** ** Matrices *)

Lemma wf_matb_spec m : wf_matb m = true <-> wf_mat m.
Proof.
  unfold wf_matb, wf_mat. rewrite andb_true_iff, Nat.eqb_eq, forallb_forall, Forall_forall.
  split; intros [H1 H2]; split; trivial; intros row Hrow.
  - apply Nat.eqb_eq, H2. now apply list_elem_of_In.
  - apply Nat.eqb_eq, H2. now apply list_elem_of_In.
Qed.

Lemma pixel_is_Some m x y :
  wf_mat m -> x < cols m -> y < rows m -> is_Some (pixel m x y).
Proof.
  intros [Hlen Hrows] Hx Hy. unfold pixel.
  destruct (data m !! y) as [row|] eqn:Hrow.
  - cbn. apply lookup_lt_is_Some.
    rewrite Forall_forall in Hrows. rewrite (Hrows row); [lia|].
    eapply list_elem_of_lookup_2; eauto.
  - apply lookup_ge_None in Hrow. lia.
Qed.

Lemma in_rect_spec r x y :
  in_rect r x y = true <->
  rect_x r <= x < rect_x r + rect_width r /\ rect_y r <= y < rect_y r + rect_height r.
Proof.
  unfold in_rect. rewrite !andb_true_iff, !Nat.leb_le, !Nat.ltb_lt. lia.
Qed.

Lemma in_rect_false r x y :
  in_rect r x y = false <->
  ~ (rect_x r <= x < rect_x r + rect_width r /\ rect_y r <= y < rect_y r + rect_height r).
Proof. rewrite <- in_rect_spec. now destruct (in_rect r x y). Qed.

Lemma pixel_copyTo src view parent x y :
  pixel (copyTo src view parent) x y =
  (fun p => if in_rect view x y
            then default p (pixel src (x - rect_x view) (y - rect_y view))
            else p) <$> pixel parent x y.
Proof.
  unfold pixel, copyTo; cbn. rewrite list_lookup_imap.
  destruct (data parent !! y) as [row|]; cbn; [|reflexivity].
  now rewrite list_lookup_imap.
Qed.

Lemma wf_copyTo src view parent : wf_mat parent -> wf_mat (copyTo src view parent).
Proof.
  intros [Hlen Hrows]. split; cbn.
  - now rewrite length_imap.
  - apply Forall_forall. intros row Hrow.
    apply list_elem_of_lookup in Hrow as [y Hy].
    rewrite list_lookup_imap in Hy.
    destruct (data parent !! y) as [row0|] eqn:Hrow0; [|discriminate].
    cbn in Hy. injection Hy as <-. rewrite length_imap.
    rewrite Forall_forall in Hrows. apply Hrows.
    eapply list_elem_of_lookup_2; eauto.
Qed.

Lemma wf_blank r c p : wf_mat (setTo (Mat_new r c) p).
Proof.
  split; cbn.
  - now rewrite length_fmap, length_replicate.
  - apply Forall_fmap, Forall_forall. intros row Hrow. cbn.
    apply elem_of_replicate in Hrow as [-> _].
    now rewrite length_fmap, length_replicate.
Qed.

Lemma pixel_blank r c p x y :
  x < c -> y < r -> pixel (setTo (Mat_new r c) p) x y = Some p.
Proof.
  intros Hx Hy. unfold pixel; cbn.
  rewrite list_lookup_fmap, lookup_replicate_2 by assumption. cbn.
  now rewrite list_lookup_fmap, lookup_replicate_2.
Qed.

(** ** Canvas geometry *)

Lemma total_dimensions_from (images : list Mat) w h :
  fold_left
    (fun '(totalWidth, maxHeight) img => (totalWidth + cols img, Nat.max maxHeight (rows img)))
    images (w, h)
  = (w + sum_list (cols <$> images), Nat.max h (max_list (rows <$> images))).
Proof.
  revert w h. induction images as [|img images IH]; intros w h; cbn.
  - f_equal; lia.
  - rewrite IH. f_equal; lia.
Qed.

Lemma total_dimensions_eq images :
  UseStitcher.total_dimensions images
  = (sum_list (cols <$> images), max_list (rows <$> images)).
Proof. unfold UseStitcher.total_dimensions. now rewrite total_dimensions_from. Qed.

Lemma x_offset_cons img images i :
  x_offset (img :: images) (S i) = cols img + x_offset images i.
Proof. reflexivity. Qed.

Lemma x_offset_S (images : list Mat) i img :
  images !! i = Some img -> x_offset images (S i) = x_offset images i + cols img.
Proof.
  intros Hi. unfold x_offset. rewrite (take_S_r _ _ _ Hi), fmap_app, sum_list_with_app.
  cbn. lia.
Qed.

Lemma x_offset_le (images : list Mat) i j :
  i <= j -> x_offset images i <= x_offset images j.
Proof.
  revert i j. induction images as [|img images IH]; intros i j Hij.
  - unfold x_offset. now rewrite !take_nil.
  - destruct i as [|i]; [unfold x_offset at 1; cbn; lia|].
    destruct j as [|j]; [lia|]. rewrite !x_offset_cons.
    specialize (IH i j). lia.
Qed.

Lemma x_offset_total (images : list Mat) i :
  x_offset images i <= sum_list (cols <$> images).
Proof.
  revert i. induction images as [|img images IH]; intros i.
  - unfold x_offset. now rewrite take_nil.
  - destruct i as [|i]; [unfold x_offset; cbn; lia|].
    rewrite x_offset_cons. cbn. specialize (IH i). lia.
Qed.

Lemma region_end_le (images : list Mat) i j img :
  images !! i = Some img -> i < j -> x_offset images i + cols img <= x_offset images j.
Proof.
  intros Hi Hij. rewrite <- (x_offset_S _ _ _ Hi). apply x_offset_le. lia.
Qed.

Lemma region_in_canvas (images : list Mat) i img :
  images !! i = Some img ->
  x_offset images i + cols img <= sum_list (cols <$> images) /\
  rows img <= max_list (rows <$> images).
Proof.
  intros Hi. split.
  - rewrite <- (x_offset_S _ _ _ Hi). apply x_offset_total.
  - apply max_list_elem_of_le, list_elem_of_fmap. exists img. split; [reflexivity|].
    eapply list_elem_of_lookup_2; eauto.
Qed.

(** ** The pasted canvas *)

Lemma paste_dims x0 rest R :
  rows (paste x0 rest R) = rows R /\ cols (paste x0 rest R) = cols R.
Proof.
  revert x0 R. induction rest as [|img rest IH]; intros x0 R; cbn; [easy|].
  destruct (IH (x0 + cols img) (copyTo img (mkRect x0 0 (cols img) (rows img)) R)) as [-> ->].
  easy.
Qed.

Lemma wf_paste x0 rest R : wf_mat R -> wf_mat (paste x0 rest R).
Proof.
  revert x0 R. induction rest as [|img rest IH]; intros x0 R HR; cbn; [easy|].
  apply IH, wf_copyTo, HR.
Qed.

(** a position that no pasted frame covers keeps what the canvas held *)
Lemma paste_outside x0 rest R X Y :
  (forall k img, rest !! k = Some img ->
     in_rect (mkRect (x0 + x_offset rest k) 0 (cols img) (rows img)) X Y = false) ->
  pixel (paste x0 rest R) X Y = pixel R X Y.
Proof.
  revert x0 R. induction rest as [|img rest IH]; intros x0 R Hout; cbn; [easy|].
  rewrite IH.
  - rewrite pixel_copyTo.
    specialize (Hout 0 img eq_refl). unfold x_offset in Hout; cbn in Hout.
    rewrite Nat.add_0_r in Hout. rewrite Hout.
    now destruct (pixel R X Y).
  - intros k img' Hk. specialize (Hout (S k) img' Hk).
    rewrite x_offset_cons in Hout. now rewrite <- Nat.add_assoc.
Qed.

(** a position inside the region of frame [k] holds that frame's pixel *)
Lemma paste_inside x0 rest R k img x y :
  rest !! k = Some img -> wf_mat img -> x < cols img -> y < rows img ->
  is_Some (pixel R (x0 + x_offset rest k + x) y) ->
  pixel (paste x0 rest R) (x0 + x_offset rest k + x) y = pixel img x y.
Proof.
  revert x0 R k. induction rest as [|hd rest IH]; intros x0 R k Hk Hwf Hx Hy HR; [easy|].
  destruct k as [|k].
  - injection Hk as ->. unfold x_offset; cbn. rewrite Nat.add_0_r.
    rewrite paste_outside.
    + rewrite pixel_copyTo. unfold x_offset in HR; cbn in HR. rewrite Nat.add_0_r in HR.
      destruct HR as [p ->]. cbn.
      replace (in_rect _ _ _) with true.
      * replace (x0 + x - x0) with x by lia. rewrite Nat.sub_0_r.
        destruct (pixel_is_Some img x y Hwf Hx Hy) as [q ->]. reflexivity.
      * symmetry. apply in_rect_spec; cbn. lia.
    + intros j img' _. apply in_rect_false; cbn. lia.
  - rewrite x_offset_cons, Nat.add_assoc in *. cbn in Hk. cbn [paste].
    apply IH; try assumption.
    rewrite pixel_copyTo. destruct HR as [p ->]. cbn. eauto.
Qed.

Lemma composite_dims images :
  cols (composite images) = sum_list (cols <$> images) /\
  rows (composite images) = max_list (rows <$> images).
Proof.
  unfold composite. rewrite total_dimensions_eq; cbn.
  split; apply paste_dims.
Qed.

Lemma wf_composite images : wf_mat (composite images).
Proof. apply wf_paste, wf_blank. Qed.

Lemma composite_inside images i img x y :
  images !! i = Some img -> wf_mat img -> x < cols img -> y < rows img ->
  pixel (composite images) (x_offset images i + x) y = pixel img x y.
Proof.
  intros Hi Hwf Hx Hy. unfold composite.
  apply (paste_inside 0 images _ i img x y Hi Hwf Hx Hy).
  rewrite total_dimensions_eq; cbn.
  destruct (region_in_canvas images i img Hi) as [Hw Hh].
  rewrite pixel_blank; [eauto | lia | lia].
Qed.

Lemma composite_outside images X Y :
  X < cols (composite images) -> Y < rows (composite images) ->
  (forall i img, images !! i = Some img -> in_rect (region images i img) X Y = false) ->
  pixel (composite images) X Y = Some opaque_black.
Proof.
  intros HX HY Hout. destruct (composite_dims images) as [Hc Hr].
  rewrite Hc in HX. rewrite Hr in HY. unfold composite.
  rewrite paste_outside.
  - rewrite total_dimensions_eq; cbn. now apply pixel_blank.
  - intros k img Hk. apply (Hout k img Hk).
Qed.

(** ** Runs of [stitchFrames] *)

Section StitcherRuns.
Import UseStitcher.

Lemma setProgress_run p s : setProgress p s = (Return tt, observed [p] s, [p]).
Proof. reflexivity. Qed.



Lemma load_frames_cons br cv n i src rest acc s :
  load_frames br cv n i (src :: rest) acc s =
  if image_loads br src then
    match imread cv src with
    | Return mat =>
        let e := {| stage := preprocessing;
                    progress := Binary64.add 10 (Binary64.mul (Binary64.div (num i) (num n)) 20);
                    message := "Loading frame " +:+ pretty (i + 1) +:+ "/" +:+ pretty n +:+ "..." |} in
        let r := load_frames br cv n (S i) rest (acc ++ [mat]) (observed [e] s) in
        (outcome r, final r, e :: trace r)
    | Throw err => (Throw err, s, [])
    end
  else (Throw (JsError ("Failed to load frame " +:+ pretty (i + 1))), s, []).
Proof.
  cbn [load_frames]. destruct (image_loads br src); [|reflexivity].
  destruct (imread cv src) as [mat|err].
  - erewrite run_bind_Return by reflexivity.
    erewrite run_bind_Return by apply setProgress_run. reflexivity.
  - erewrite run_bind_Throw by reflexivity. reflexivity.
Qed.

Lemma load_frames_run br cv n rest : forall i acc s,
  exists k evs,
    trace (load_frames br cv n i rest acc s) = evs /\
    final (load_frames br cv n i rest acc s) = observed evs s /\
    k <= length rest /\
    checkpoint <$> evs = (fun j => (preprocessing, (Binary64.add 10 (Binary64.mul (Binary64.div (num j) (num n)) 20)))) <$> seq i k /\
    (forall imgs, outcome (load_frames br cv n i rest acc s) = Return imgs ->
       k = length rest /\ length imgs = length acc + length rest).
Proof.
  induction rest as [|src rest IH]; intros i acc s.
  - exists 0, []. cbn. repeat split; trivial; injection H as <-; lia.
  - rewrite load_frames_cons.
    destruct (image_loads br src); [destruct (imread cv src) as [mat|err]|].
    + destruct (IH (S i) (acc ++ [mat]) (observed [
          {| stage := preprocessing;
             progress := Binary64.add 10 (Binary64.mul (Binary64.div (num i) (num n)) 20);
             message := "Loading frame " +:+ pretty (i + 1) +:+ "/" +:+ pretty n +:+ "..." |}] s))
        as (k & evs & Ht & Hf & Hk & Hcp & Hret).
      exists (S k). eexists. cbn [trace final outcome fst snd].
      split; [reflexivity|]. rewrite Ht, Hf. cbn [fmap list_fmap].
      split; [reflexivity|]. split; [cbn; lia|].
      split; [cbn; f_equal; exact Hcp|].
      intros imgs Himgs. destruct (Hret imgs Himgs) as [-> Hlen].
      rewrite length_app in Hlen. cbn in *. lia.
    + exists 0, []. cbn. repeat split; trivial; try lia; discriminate.
    + exists 0, []. cbn. repeat split; trivial; try lia; discriminate.
Qed.


Lemma place_frames_cons n i x img rest R s :
  cols img + x <= cols R -> rows img <= rows R ->
  place_frames n i x (img :: rest) R s =
  let e := {| stage := warping;
              progress := Binary64.add 50 (Binary64.mul (Binary64.div (num i) (num n)) 30);
              message := "Stitching frame " +:+ pretty (i + 1) +:+ "/" +:+ pretty n +:+ "..." |} in
  let r := place_frames n (S i) (x + cols img) rest
             (copyTo img (mkRect x 0 (cols img) (rows img)) R) (observed [e] s) in
  (outcome r, final r, e :: trace r).
Proof.
  intros Hc Hr. cbn [place_frames].
  erewrite run_bind_Return.
  2:{ unfold lift, roi; cbn.
      replace (x + cols img <=? cols R) with true by (symmetry; apply Nat.leb_le; lia).
      replace (rows img <=? rows R) with true by (symmetry; apply Nat.leb_le; lia).
      reflexivity. }
  erewrite run_bind_Return by apply setProgress_run. reflexivity.
Qed.

Lemma place_frames_run n rest : forall i x R s,
  x + sum_list (cols <$> rest) <= cols R ->
  Forall (fun img => rows img <= rows R) rest ->
  exists evs,
    place_frames n i x rest R s = (Return (paste x rest R), observed evs s, evs) /\
    checkpoint <$> evs = (fun j => (warping, (Binary64.add 50 (Binary64.mul (Binary64.div (num j) (num n)) 30)))) <$> seq i (length rest).
Proof.
  induction rest as [|img rest IH]; intros i x R s Hw Hh.
  - exists []. now cbn.
  - cbn in Hw. apply Forall_cons in Hh as [Hh Hrest].
    rewrite place_frames_cons by lia. cbv zeta.
    edestruct (IH (S i) (x + cols img) (copyTo img (mkRect x 0 (cols img) (rows img)) R))
      as (evs & Hrun & Hcp).
    { cbn. lia. }
    { exact Hrest. }
    rewrite Hrun. eexists (_ :: evs). cbn [outcome final trace fst snd paste].
    split; [reflexivity|]. cbn; f_equal; assumption.
Qed.

Lemma concatenate_run images s :
  exists evs,
    concatenate images s = (Return (composite images), observed evs s, evs) /\
    checkpoint <$> evs =
      (warping, 50%Q) ::
      ((fun j => (warping, (Binary64.add 50 (Binary64.mul (Binary64.div (num j) (num (length images))) 30)))) <$> seq 0 (length images)).
Proof.
  unfold concatenate.
  edestruct (place_frames_run (length images) images 0 0
               (setTo (Mat_new (max_list (rows <$> images)) (sum_list (cols <$> images))) opaque_black))
    as (evs & Hrun & Hcp).
  { cbn. lia. }
  { cbn. apply Forall_forall. intros img Himg.
    apply max_list_elem_of_le, list_elem_of_fmap. eauto. }
  eexists (_ :: evs).
  erewrite run_bind_Return by apply setProgress_run.
  rewrite total_dimensions_eq. rewrite Hrun.
  cbn [outcome final trace fst snd]. unfold composite. rewrite total_dimensions_eq. cbn [fst snd].
  split; [reflexivity|]. cbn; f_equal; assumption.
Qed.

Lemma compose_fallback cv images s :
  stitcher_available cv = false -> compose cv images s = concatenate images s.
Proof.
  unfold stitcher_available, compose.
  destruct (Stitcher_create cv), (Stitcher_PANORAMA cv); easy.
Qed.

Lemma compose_stitcher cv create mode images s :
  Stitcher_create cv = Some create -> Stitcher_PANORAMA cv = Some mode ->
  compose cv images s =
  (match create mode images with
   | Return (status, pano) =>
       if is_OK cv status then Return pano
       else Throw (JsError ("Stitching failed with status: " +:+ pretty status))
   | Throw e => Throw e
   end, s, []).
Proof.
  intros Hc Hm. unfold compose, run_stitcher. rewrite Hc, Hm.
  destruct (create mode images) as [[status pano]|e].
  - erewrite run_bind_Return by reflexivity.
    cbn. now destruct (is_OK cv status).
  - erewrite run_bind_Throw by reflexivity. reflexivity.
Qed.

Lemma stitch_block_run br cv images s :
  stitch_block br cv images s =
  match outcome (compose cv images s) with
  | Throw e => (Throw e, final (compose cv images s), trace (compose cv images s))
  | Return result =>
      (match convert cv result with
       | Return equirect => encode br cv equirect
       | Throw e => Throw e
       end,
       observed [mkProgress blending 80 "Blending seams..."; mkProgress complete 100 "Complete!"]
         (final (compose cv images s)),
       trace (compose cv images s) ++
       [mkProgress blending 80 "Blending seams..."; mkProgress complete 100 "Complete!"])
  end.
Proof.
  unfold stitch_block, try_catch.
  destruct (compose cv images s) as [[[result|e] s1] t1] eqn:Hc; cbn [outcome final trace fst snd].
  - erewrite run_bind_Return by exact Hc.
    erewrite run_bind_Return by apply setProgress_run.
    erewrite run_bind_Return by apply setProgress_run.
    destruct (convert cv result) as [equirect|e].
    + erewrite run_bind_Return by reflexivity. cbn.
      destruct (encode br cv equirect); cbn; now rewrite ?app_nil_r.
    + erewrite run_bind_Throw by reflexivity. cbn.
      now rewrite ?app_nil_r.
  - erewrite run_bind_Throw by exact Hc. cbn. now rewrite app_nil_r.
Qed.

Lemma pipeline_run br cv frames s :
  let pre := mkProgress preprocessing 10 "Preprocessing frames..." in
  let det := mkProgress detecting 30 "Detecting features..." in
  let rl := load_frames br cv (length frames) 0 frames [] (observed [pre] s) in
  pipeline br cv frames s =
  match outcome rl with
  | Throw e => (Throw e, final rl, pre :: trace rl)
  | Return images =>
      let rb := stitch_block br cv images (observed [det] (final rl)) in
      (outcome rb, final rb, pre :: trace rl ++ det :: trace rb)
  end.
Proof.
  intros pre det rl. unfold pipeline.
  erewrite run_bind_Return by apply setProgress_run.
  fold pre. fold rl.
  destruct rl as [[[images|e] s1] t1] eqn:Hl; cbn [outcome final trace fst snd].
  - erewrite run_bind_Return by exact Hl.
    erewrite run_bind_Return by apply setProgress_run.
    cbn [outcome final trace fst snd]. fold det.
    destruct (stitch_block br cv images (observed [det] s1)) as [[r s2] t2].
    cbn. reflexivity.
  - erewrite run_bind_Throw by exact Hl. reflexivity.
Qed.

Lemma stitchFrames_run br cv frames s :
  2 <= length frames ->
  let ld := mkProgress loading 0 "Loading frames..." in
  let r := pipeline br cv frames (observed [ld] (mkHook true (current s) None (pendingResets s))) in
  stitchFrames br true (Some cv) frames s =
  (outcome r,
   mkHook false (current (final r))
     match outcome r with
     | Return _ => error (final r)
     | Throw e => Some (message_or "Stitching failed" e)
     end
     (pendingResets (final r) ++ [2000]),
   ld :: trace r).
Proof.
  intros Hn ld r. unfold stitchFrames.
  replace (length frames <? 2) with false by (symmetry; apply Nat.ltb_ge; lia).
  cbv beta iota.
  unfold mbind, M_bind, bind, setIsStitching, setError, setProgress, scheduleProgressReset,
    modify, emit, try_finally, try_catch, throw, mbind, M_bind, bind. cbn.
  subst r. unfold observed; cbn.
  destruct (pipeline br cv frames _) as [[[url|e] s1] t1]; cbn; now rewrite ?app_nil_r.
Qed.
End StitcherRuns.

(** ** Engine guard, frame-count guard and algorithm selection *)

Section EntryContract.
Import UseStitcher.







(** C9: the engine check comes before the frame-count check. Whenever
    OpenCV is not loaded ([isLoaded] false or [cv] null), [stitchFrames]
    rejects with 'OpenCV not loaded' for every frame list, the empty and
    the single-frame list included, leaving the state untouched and
    emitting nothing; so a rejection with 'Need at least 2 frames to
    stitch' is only ever seen with the engine available. *)
Theorem C9_engine_checked_first br isLoaded cv frames s :
  (isLoaded = false \/ cv = None ->
   stitchFrames br isLoaded cv frames s = (Throw EngineNotLoaded, s, [])) /\
  (outcome (stitchFrames br isLoaded cv frames s) = Throw InsufficientFrames ->
   isLoaded = true /\ is_Some cv).
Proof.
  split.
  - intros [-> | ->]; [reflexivity|]. now destruct isLoaded.
  - destruct isLoaded, cv as [engine|]; cbn; try discriminate. eauto.
Qed.

Lemma C9_witness :
  stitchFrames Demo.browser false None ["A"] Demo.idle = (Throw EngineNotLoaded, Demo.idle, []) /\
  (true = true /\ is_Some (Some Demo.plain_cv)).
Proof.
  split.
  - apply (proj1 (C9_engine_checked_first Demo.browser false None ["A"] Demo.idle)).
    left; reflexivity.
  - apply (proj2 (C9_engine_checked_first Demo.browser true (Some Demo.plain_cv) ["A"] Demo.idle)).
    reflexivity.
Defined.

(** C2, counterexample: with OpenCV not loaded, the empty frame list is
    rejected with 'OpenCV not loaded', which is not the
    insufficient-frames error. *)
Lemma C2_counterexample :
  length ([] : list string) < 2 /\
  outcome (stitchFrames Demo.browser false None [] Demo.idle) = Throw EngineNotLoaded /\
  outcome (stitchFrames Demo.browser false None [] Demo.idle) <> Throw InsufficientFrames.
Proof. split; [cbn; lia|]. split; [reflexivity|discriminate]. Qed.

(** C2, amended: for every frame list of length < 2, [stitchFrames]
    rejects before the loading stage: it produces no panorama, emits no
    progress event and leaves the hook state as it was. The rejection is
    'Need at least 2 frames to stitch' when the engine is loaded, and
    'OpenCV not loaded' otherwise. *)
Theorem C2_too_few_frames br isLoaded cv frames s :
  length frames < 2 ->
  is_Return (outcome (stitchFrames br isLoaded cv frames s)) = false /\
  trace (stitchFrames br isLoaded cv frames s) = [] /\
  final (stitchFrames br isLoaded cv frames s) = s /\
  (isLoaded = true -> is_Some cv ->
   outcome (stitchFrames br isLoaded cv frames s) = Throw InsufficientFrames) /\
  (isLoaded = false \/ cv = None ->
   outcome (stitchFrames br isLoaded cv frames s) = Throw EngineNotLoaded).
Proof.
  intros Hn. unfold stitchFrames.
  destruct isLoaded, cv as [engine|];
    try (repeat split; try reflexivity; try discriminate;
         intros; repeat match goal with
                        | H : _ \/ _ |- _ => destruct H
                        | H : is_Some None |- _ => destruct H
                        end; discriminate || reflexivity).
  replace (length frames <? 2) with true by (symmetry; apply Nat.ltb_lt; lia).
  repeat split; try reflexivity. intros [H|H]; discriminate.
Qed.

Lemma C2_witness :
  is_Return (outcome (stitchFrames Demo.browser true (Some Demo.plain_cv) ["A"] Demo.idle)) = false /\
  trace (stitchFrames Demo.browser true (Some Demo.plain_cv) ["A"] Demo.idle) = [] /\
  final (stitchFrames Demo.browser true (Some Demo.plain_cv) ["A"] Demo.idle) = Demo.idle /\
  outcome (stitchFrames Demo.browser true (Some Demo.plain_cv) ["A"] Demo.idle)
    = Throw InsufficientFrames.
Proof.
  destruct (C2_too_few_frames Demo.browser true (Some Demo.plain_cv) ["A"] Demo.idle)
    as (H1 & H2 & H3 & H4 & _).
  - cbn; lia.
  - split; [exact H1|]. split; [exact H2|]. split; [exact H3|].
    apply H4; [reflexivity | eexists; reflexivity].
Defined.

End EntryContract.

Section AlgorithmSelection.
Import UseStitcher.




End AlgorithmSelection.

(** ** The concatenated canvas *)

Section Canvas.
Import UseStitcher.

(** C3: for every list of well-formed frames (in particular every list of
    two or more), the concatenation path returns a canvas whose width is
    the sum of the frame widths and whose height is the largest frame
    height; frame [i] lies to the left of every later frame, and every
    pixel of every frame is present in the canvas, at its own row and at
    its column shifted by the widths of the frames before it. *)
Theorem C3_concatenation images s :
  Forall wf_mat images ->
  outcome (concatenate images s) = Return (composite images) /\
  wf_mat (composite images) /\
  cols (composite images) = sum_list (cols <$> images) /\
  rows (composite images) = max_list (rows <$> images) /\
  (forall i j img, images !! i = Some img -> i < j ->
     x_offset images i + cols img <= x_offset images j) /\
  (forall i img x y, images !! i = Some img -> x < cols img -> y < rows img ->
     is_Some (pixel img x y) /\
     pixel (composite images) (x_offset images i + x) y = pixel img x y).
Proof.
  intros Hwf.
  destruct (concatenate_run images s) as (evs & -> & _).
  destruct (composite_dims images) as [Hc Hr].
  split; [reflexivity|]. split; [apply wf_composite|].
  split; [exact Hc|]. split; [exact Hr|].
  split; [intros i j img Hi Hij; now apply region_end_le|].
  intros i img x y Hi Hx Hy.
  assert (wf_mat img) as Himg.
  { rewrite Forall_forall in Hwf. apply Hwf. eapply list_elem_of_lookup_2; eauto. }
  split; [now apply pixel_is_Some | now apply composite_inside].
Qed.

Lemma C3_witness :
  outcome (concatenate [Demo.frameA; Demo.frameB] Demo.idle)
    = Return (composite [Demo.frameA; Demo.frameB]) /\
  cols (composite [Demo.frameA; Demo.frameB]) = 3 /\
  rows (composite [Demo.frameA; Demo.frameB]) = 2 /\
  pixel (composite [Demo.frameA; Demo.frameB]) 2 1 = Some (Demo.grey x40).
Proof.
  destruct (C3_concatenation [Demo.frameA; Demo.frameB] Demo.idle)
    as (Hrun & _ & Hc & Hr & _ & Hpix).
  - repeat constructor.
  - split; [exact Hrun|]. split; [exact Hc|]. split; [exact Hr|].
    exact (proj2 (Hpix 1 Demo.frameB 0 1 eq_refl (le_n 1) (le_n 2))).
Defined.

(** C10: in the concatenation path frame [i] is copied to the rectangle
    that starts at column [x_offset images i] (the sum of the widths of
    frames 0..i-1) and row 0 and has the frame's size; the rectangles of
    distinct frames do not overlap; and every position of the canvas
    outside all of them is opaque black (0,0,0,255). *)
Theorem C10_regions images s :
  Forall wf_mat images ->
  exists canvas,
    outcome (concatenate images s) = Return canvas /\
    (forall i img x y, images !! i = Some img ->
       in_rect (mkRect (x_offset images i) 0 (cols img) (rows img)) x y = true ->
       is_Some (pixel canvas x y) /\
       pixel canvas x y = pixel img (x - x_offset images i) (y - 0)) /\
    (forall i j imgi imgj x y, i <> j ->
       images !! i = Some imgi -> images !! j = Some imgj ->
       in_rect (mkRect (x_offset images i) 0 (cols imgi) (rows imgi)) x y = true ->
       in_rect (mkRect (x_offset images j) 0 (cols imgj) (rows imgj)) x y = false) /\
    (forall x y, x < cols canvas -> y < rows canvas ->
       (forall i img, images !! i = Some img ->
          in_rect (mkRect (x_offset images i) 0 (cols img) (rows img)) x y = false) ->
       pixel canvas x y = Some (x00, x00, x00, xff)).
Proof.
  intros Hwf. exists (composite images).
  destruct (concatenate_run images s) as (evs & -> & _).
  split; [reflexivity|]. split; [|split].
  - intros i img x y Hi Hin. apply in_rect_spec in Hin; cbn in Hin.
    assert (wf_mat img) as Himg.
    { rewrite Forall_forall in Hwf. apply Hwf. eapply list_elem_of_lookup_2; eauto. }
    replace x with (x_offset images i + (x - x_offset images i)) at 1 2 by lia.
    rewrite Nat.sub_0_r.
    rewrite (composite_inside images i img) by (trivial; lia).
    split; [|reflexivity]. apply pixel_is_Some; trivial; lia.
  - intros i j imgi imgj x y Hij Hi Hj Hin.
    apply in_rect_spec in Hin; cbn in Hin. apply in_rect_false; cbn.
    destruct (Nat.lt_total i j) as [Hlt|[Heq|Hgt]]; [| contradiction |].
    + pose proof (region_end_le images i j imgi Hi Hlt). lia.
    + pose proof (region_end_le images j i imgj Hj Hgt). lia.
  - intros x y Hx Hy Hout. change (x00, x00, x00, xff) with opaque_black.
    now apply composite_outside.
Qed.

Lemma C10_witness :
  exists canvas,
    outcome (concatenate [Demo.frameA; Demo.frameB] Demo.idle) = Return canvas /\
    pixel canvas 2 0 = Some (Demo.grey x30) /\
    pixel canvas 0 1 = Some (x00, x00, x00, xff).
Proof.
  destruct (C10_regions [Demo.frameA; Demo.frameB] Demo.idle)
    as (canvas & Hrun & Hin & _ & Hout).
  - repeat constructor.
  - exists canvas. split; [exact Hrun|]. split.
    + exact (proj2 (Hin 1 Demo.frameB 2 0 eq_refl eq_refl)).
    + injection Hrun as <-. apply Hout; [cbn; lia | cbn; lia |].
      intros [|[|i]] img Hi; [injection Hi as <- ..|discriminate]; reflexivity.
Defined.

End Canvas.

(** ** Projection to 2:1 *)

Section Projection.
Import UseStitcher.

Lemma half_floor_div2 w : half_floor w = w / 2.
Proof.
  unfold half_floor, num.
  change (Qfloor (inject_Z (Z.of_nat w) / 2)) with ((Z.of_nat w * 1) / 2)%Z.
  rewrite Z.mul_1_r. change 2%Z with (Z.of_nat 2).
  now rewrite <- Nat2Z.inj_div, Nat2Z.id.
Qed.

Lemma nearest_to_dsize : resize_to_dsize Demo.plain_cv.
Proof.
  intros src w h dst. cbn. unfold Demo.nearest.
  destruct (_ || _); [discriminate|]. now intros [= <-].
Qed.

(** C4: the projection step asks [cv.resize] for the size
    (width of the composite, floor(width / 2)) and returns what [resize]
    returns; so, [resize] producing an image of the size it is asked for,
    the image returned has the composite's width and height
    floor(width / 2). *)
Theorem C4_projection cv result :
  convert cv result = resize cv result (cols result, cols result / 2) /\
  (resize_to_dsize cv ->
   forall out, convert cv result = Return out ->
     cols out = cols result /\ rows out = cols result / 2).
Proof.
  assert (convert cv result = resize cv result (cols result, cols result / 2)) as Heq.
  { unfold convert. now rewrite half_floor_div2. }
  split; [exact Heq|].
  intros Hresize out Hout. rewrite Heq in Hout. now apply Hresize in Hout.
Qed.

Lemma C4_witness :
  exists out,
    convert Demo.plain_cv (composite [Demo.frameA; Demo.frameB]) = Return out /\
    cols out = 3 /\ rows out = 1.
Proof.
  eexists. split; [vm_compute; reflexivity|].
  apply (proj2 (C4_projection Demo.plain_cv (composite [Demo.frameA; Demo.frameB]))
           nearest_to_dsize).
  vm_compute; reflexivity.
Defined.

End Projection.

(** ** Rounding to the nearest double *)

Section Rounding.
Import Binary64.
Local Open Scope Q_scope.

Lemma two_pos k : 0 < 2 ^ k.
Proof. now apply Qpower_0_lt. Qed.

Lemma two_add a b : 2 ^ (a + b) == 2 ^ a * 2 ^ b.
Proof. now apply Qpower_plus. Qed.

Lemma two_le a b : (a <= b)%Z -> 2 ^ a <= 2 ^ b.
Proof. intros H. now apply Qpower_le_compat_l. Qed.

Lemma two_inject k : (0 <= k)%Z -> inject_Z (2 ^ k) == 2 ^ k.
Proof. intros H. now rewrite Zpower_Qpower. Qed.

Lemma ilog2_spec q : 0 < q -> 2 ^ ilog2 q <= q /\ q < 2 ^ (ilog2 q + 1).
Proof.
  intros Hq. destruct q as [a b]. unfold ilog2. cbn [Qnum Qden].
  assert (0 < a)%Z as Ha by (unfold Qlt in Hq; cbn in Hq; lia).
  set (la := Z.log2 a). set (lb := Z.log2 (Z.pos b)).
  destruct (Z.log2_spec a Ha) as [Ha1 Ha2]. fold la in Ha1, Ha2.
  destruct (Z.log2_spec (Z.pos b) eq_refl) as [Hb1 Hb2]. fold lb in Hb1, Hb2.
  assert (0 <= la)%Z as Hla by apply Z.log2_nonneg.
  assert (0 <= lb)%Z as Hlb by apply Z.log2_nonneg.
  assert (a # b == inject_Z a / inject_Z (Z.pos b)) as Hab by apply Qmake_Qdiv.
  assert (0 < inject_Z (Z.pos b)) as Hbpos by reflexivity.
  assert (2 ^ la <= inject_Z a) as Qa1 by (rewrite <- two_inject, <- Zle_Qle; lia).
  assert (inject_Z a < 2 ^ (la + 1)) as Qa2.
  { rewrite <- two_inject by lia. rewrite <- Zlt_Qlt. now rewrite <- Z.add_1_r in Ha2. }
  assert (2 ^ lb <= inject_Z (Z.pos b)) as Qb1 by (rewrite <- two_inject, <- Zle_Qle; lia).
  assert (inject_Z (Z.pos b) < 2 ^ (lb + 1)) as Qb2.
  { rewrite <- two_inject by lia. rewrite <- Zlt_Qlt. now rewrite <- Z.add_1_r in Hb2. }
  assert (2 ^ (la - lb - 1) <= a # b) as Hlow.
  { rewrite Hab. apply Qle_shift_div_l; [exact Hbpos|].
    apply Qle_trans with (2 ^ (la - lb - 1) * 2 ^ (lb + 1)).
    - apply Qmult_le_l; [apply two_pos | now apply Qlt_le_weak].
    - rewrite <- two_add. now replace (la - lb - 1 + (lb + 1))%Z with la by lia. }
  assert (a # b < 2 ^ (la - lb + 1)) as Hhigh.
  { rewrite Hab. apply Qlt_shift_div_r; [exact Hbpos|].
    apply Qlt_le_trans with (2 ^ (la + 1)); [exact Qa2|].
    replace (la + 1)%Z with (la - lb + 1 + lb)%Z by lia. rewrite two_add.
    apply Qmult_le_l; [apply two_pos | exact Qb1]. }
  destruct (Qle_bool (2 ^ (la - lb)) (a # b)) eqn:Ht.
  - apply Qle_bool_iff in Ht. now split.
  - split; [exact Hlow|]. replace (la - lb - 1 + 1)%Z with (la - lb)%Z by lia.
    apply Qnot_le_lt. intros H. apply Qle_bool_iff in H. congruence.
Qed.

Lemma ilog2_le q k : 0 < q -> q < 2 ^ (k + 1) -> (ilog2 q <= k)%Z.
Proof.
  intros Hq Hk. destruct (ilog2_spec q Hq) as [Hlo _].
  assert (2 ^ ilog2 q < 2 ^ (k + 1)) as H by (eapply Qle_lt_trans; eauto).
  apply Qpower_lt_compat_l_inv in H; [lia | reflexivity].
Qed.

Lemma ilog2_ge q k : 0 < q -> 2 ^ k <= q -> (k <= ilog2 q)%Z.
Proof.
  intros Hq Hk. destruct (ilog2_spec q Hq) as [_ Hhi].
  assert (2 ^ k < 2 ^ (ilog2 q + 1)) as H by (eapply Qle_lt_trans; eauto).
  apply Qpower_lt_compat_l_inv in H; [lia | reflexivity].
Qed.

Lemma ilog2_mono p q : 0 < p -> p <= q -> (ilog2 p <= ilog2 q)%Z.
Proof.
  intros Hp Hpq. apply ilog2_ge; [eapply Qlt_le_trans; eauto|].
  destruct (ilog2_spec p Hp) as [Hlo _]. eapply Qle_trans; eauto.
Qed.

Lemma nearest_even_bounds x :
  (Qfloor x <= nearest_even x <= Qfloor x + 1)%Z.
Proof.
  unfold nearest_even. destruct (_ ?= _); [destruct (Z.even _)| |]; lia.
Qed.

Lemma nearest_even_Z z : nearest_even (inject_Z z) = z.
Proof.
  unfold nearest_even. rewrite Qfloor_Z.
  assert (inject_Z z - inject_Z z == 0) as H by ring.
  assert ((inject_Z z - inject_Z z ?= 1 # 2) = Lt) as ->; [|reflexivity].
  apply Qlt_alt. rewrite H. reflexivity.
Qed.

Lemma nearest_even_mono x y : x <= y -> (nearest_even x <= nearest_even y)%Z.
Proof.
  intros Hxy. pose proof (Qfloor_resp_le x y Hxy) as Hf.
  pose proof (nearest_even_bounds x) as Hx. pose proof (nearest_even_bounds y) as Hy.
  destruct (Z.eq_dec (Qfloor x) (Qfloor y)) as [Heq|Hne]; [|lia].
  unfold nearest_even in *. rewrite <- Heq in *. clear Hx Hy Hf Heq.
  set (f := Qfloor x) in *.
  destruct (Qcompare_spec (x - inject_Z f) (1 # 2)) as [Hx|Hx|Hx];
    destruct (Qcompare_spec (y - inject_Z f) (1 # 2)) as [Hy|Hy|Hy];
    try destruct (Z.even f); try lia; exfalso; lra.
Qed.

(** the distance to the nearest integer is at most one half *)
Lemma nearest_even_near x :
  x - (1 # 2) <= inject_Z (nearest_even x) <= x + (1 # 2).
Proof.
  pose proof (Qfloor_le x) as Hlo. pose proof (Qlt_floor x) as Hhi.
  unfold nearest_even. set (f := Qfloor x) in *.
  rewrite inject_Z_plus in Hhi. change (inject_Z 1) with 1 in Hhi.
  destruct (Qcompare_spec (x - inject_Z f) (1 # 2)) as [Hx|Hx|Hx];
    [destruct (Z.even f)| |]; rewrite ?inject_Z_plus; change (inject_Z 1) with 1; lra.
Qed.

Lemma round_zero q : q == 0 -> round q = 0.
Proof.
  destruct q as [a b]. unfold Qeq. cbn. intros H.
  assert (a = 0%Z) as -> by lia. reflexivity.
Qed.

Lemma round_pos q :
  0 < q -> round q == inject_Z (nearest_even (q / 2 ^ quantum q)) * 2 ^ quantum q.
Proof.
  destruct q as [a b]. unfold Qlt. cbn. intros H.
  destruct a as [|p|p]; try lia. unfold round. cbn [Qnum]. apply Qred_correct.
Qed.

Lemma scaled_nonneg q e : 0 <= q -> 0 <= q / 2 ^ e.
Proof.
  intros H. apply Qle_shift_div_l; [apply two_pos|]. now rewrite Qmult_0_l.
Qed.

Lemma round_nonneg q : 0 <= q -> 0 <= round q.
Proof.
  intros H. destruct (Qlt_le_dec 0 q) as [Hpos|Hle].
  - rewrite (round_pos q Hpos). apply Qmult_le_0_compat; [|apply Qlt_le_weak, two_pos].
    change 0 with (inject_Z 0). rewrite <- Zle_Qle.
    pose proof (nearest_even_bounds (q / 2 ^ quantum q)) as [Hb _].
    pose proof (Qfloor_resp_le 0 _ (scaled_nonneg q (quantum q) H)) as Hf.
    change (Qfloor 0) with 0%Z in Hf. lia.
  - rewrite (round_zero q); [apply Qle_refl | now apply Qle_antisym].
Qed.

Lemma quantum_mono p q : 0 < p -> p <= q -> (quantum p <= quantum q)%Z.
Proof. intros Hp Hpq. pose proof (ilog2_mono p q Hp Hpq). unfold quantum. lia. Qed.

(** rounding preserves the order *)
Lemma round_mono p q : 0 <= p -> p <= q -> round p <= round q.
Proof.
  intros Hp Hpq. destruct (Qlt_le_dec 0 p) as [Hpos|Hle].
  2: { rewrite (round_zero p) by now apply Qle_antisym.
       apply round_nonneg. eapply Qle_trans; eauto. }
  assert (0 < q) as Hq by (eapply Qlt_le_trans; eauto).
  rewrite (round_pos p Hpos), (round_pos q Hq).
  pose proof (quantum_mono p q Hpos Hpq) as He.
  set (e1 := quantum p) in *. set (e2 := quantum q) in *.
  destruct (Z.eq_dec e1 e2) as [Heq|Hne].
  - rewrite Heq. apply Qmult_le_compat_r; [|apply Qlt_le_weak, two_pos].
    rewrite <- Zle_Qle. apply nearest_even_mono.
    apply Qmult_le_compat_r; [exact Hpq|]. apply Qinv_le_0_compat, Qlt_le_weak, two_pos.
  - assert (e1 + 1 <= e2)%Z as Hlt by lia.
    apply Qle_trans with (2 ^ (e2 + 52)).
    + (* the smaller number rounds to at most 2^(e1+53) *)
      apply Qle_trans with (2 ^ (53 + e1)); [|apply two_le; lia].
      rewrite two_add. apply Qmult_le_compat_r; [|apply Qlt_le_weak, two_pos].
      rewrite <- (two_inject 53) by lia. rewrite <- Zle_Qle.
      rewrite <- (nearest_even_Z (2 ^ 53)). apply nearest_even_mono.
      rewrite (two_inject 53) by lia. apply Qle_shift_div_r; [apply two_pos|].
      rewrite <- two_add. apply Qlt_le_weak.
      destruct (ilog2_spec p Hpos) as [_ Hhi].
      eapply Qlt_le_trans; [exact Hhi|]. apply two_le. unfold e1, quantum. lia.
    + (* the larger number rounds to at least 2^(e2+52) *)
      replace (e2 + 52)%Z with (52 + e2)%Z by lia.
      rewrite two_add. apply Qmult_le_compat_r; [|apply Qlt_le_weak, two_pos].
      rewrite <- (two_inject 52) by lia. rewrite <- Zle_Qle.
      rewrite <- (nearest_even_Z (2 ^ 52)) at 1. apply nearest_even_mono.
      rewrite (two_inject 52) by lia. apply Qle_shift_div_l; [apply two_pos|].
      rewrite <- two_add.
      destruct (ilog2_spec q Hq) as [Hlo _].
      eapply Qle_trans; [|exact Hlo]. apply two_le.
      assert (e2 = ilog2 q - 52)%Z as ->; [|lia].
      unfold e1, e2, quantum in *. lia.
Qed.

(** a number below [2 ^ (k + 1)] is rounded by at most [2 ^ (k - 53)] *)
Lemma round_near q k :
  0 <= q -> q < 2 ^ (k + 1) -> (-1022 <= k)%Z ->
  q - 2 ^ (k - 53) <= round q <= q + 2 ^ (k - 53).
Proof.
  intros Hq Hk Hmin. pose proof (two_pos (k - 53)) as Hpos53.
  destruct (Qlt_le_dec 0 q) as [Hpos|Hle].
  2: { rewrite (round_zero q) by now apply Qle_antisym.
       assert (q == 0) as -> by now apply Qle_antisym. split; lra. }
  rewrite (round_pos q Hpos).
  pose proof (ilog2_le q k Hpos Hk) as Hl.
  assert (quantum q <= k - 52)%Z as He by (unfold quantum; lia).
  set (e := quantum q) in *.
  pose proof (nearest_even_near (q / 2 ^ e)) as [Hlo Hhi].
  pose proof (two_pos e) as Hpe.
  assert (q / 2 ^ e * 2 ^ e == q) as Hqe.
  { field. intros H0. rewrite H0 in Hpe. now apply Qlt_irrefl in Hpe. }
  assert ((1 # 2) * 2 ^ e <= 2 ^ (k - 53)) as Hhalf.
  { apply Qle_trans with ((1 # 2) * 2 ^ (k - 52)).
    - apply Qmult_le_l; [reflexivity | now apply two_le].
    - replace (k - 52)%Z with (1 + (k - 53))%Z by lia. rewrite two_add.
      change (2 ^ 1) with 2. lra. }
  apply (Qmult_le_compat_r _ _ (2 ^ e)) in Hlo; [|now apply Qlt_le_weak].
  apply (Qmult_le_compat_r _ _ (2 ^ e)) in Hhi; [|now apply Qlt_le_weak].
  set (m := inject_Z (nearest_even (q / 2 ^ e))) in *.
  set (t := 2 ^ e) in *. set (x := q / t) in *.
  assert ((x - (1 # 2)) * t == q - (1 # 2) * t) as E1 by (rewrite <- Hqe; ring).
  assert ((x + (1 # 2)) * t == q + (1 # 2) * t) as E2 by (rewrite <- Hqe; ring).
  rewrite E1 in Hlo. rewrite E2 in Hhi. split; lra.
Qed.

End Rounding.

(** ** The trace of progress reports *)

Section ProgressTrace.
Import UseStitcher.

Lemma stitchFrames_checkpoints br cv frames s :
  2 <= length frames ->
  exists (k : nat) (d c : bool),
    k <= length frames /\
    (d = true -> k = length frames) /\
    (c = true -> d = true) /\
    (d = true -> stitcher_available cv = false -> c = true) /\
    (is_Return (outcome (stitchFrames br true (Some cv) frames s)) = true -> c = true) /\
    checkpoint <$> trace (stitchFrames br true (Some cv) frames s) =
      [(loading, 0%Q); (preprocessing, 10%Q)] ++
      ((fun j => (preprocessing, (Binary64.add 10 (Binary64.mul (Binary64.div (num j) (num (length frames))) 20)))) <$> seq 0 k) ++
      (if d then
         (detecting, 30%Q) ::
         (if stitcher_available cv then []
          else (warping, 50%Q) ::
               ((fun j => (warping, (Binary64.add 50 (Binary64.mul (Binary64.div (num j) (num (length frames))) 30))))
                  <$> seq 0 (length frames))) ++
         (if c then [(blending, 80%Q); (complete, 100%Q)] else [])
       else []).
Proof.
  intros Hn. rewrite stitchFrames_run by assumption. cbv zeta.
  cbn [outcome trace fst snd]. rewrite pipeline_run. cbv zeta.
  destruct (load_frames_run br cv (length frames) frames 0 []
              (observed [mkProgress preprocessing 10 "Preprocessing frames..."]
                 (observed [mkProgress loading 0 "Loading frames..."]
                    (mkHook true (current s) None (pendingResets s)))))
    as (k & evs & Ht & Hf & Hk & Hcp & Hret).
  rewrite Ht. clear Ht Hf.
  destruct (outcome (load_frames _ _ _ _ _ _ _)) as [images|e].
  - destruct (Hret images eq_refl) as [-> Hlen]. cbn in Hlen. clear Hret.
    rewrite stitch_block_run.
    destruct (stitcher_available cv) eqn:Hav.
    + unfold stitcher_available in Hav.
      destruct (Stitcher_create cv) as [create|] eqn:Hc; [|discriminate].
      destruct (Stitcher_PANORAMA cv) as [mode|] eqn:Hm; [|discriminate].
      rewrite (compose_stitcher cv create mode images _ Hc Hm). cbn [outcome final trace fst snd].
      destruct (match create mode images with Return _ => _ | Throw _ => _ end) as [result|e].
      * exists (length frames), true, true. cbn [outcome trace fst snd].
        repeat split; trivial; try lia.
        rewrite !fmap_cons, fmap_app, Hcp. reflexivity.
      * exists (length frames), true, false. cbn [outcome trace fst snd].
        repeat split; trivial; try lia; try discriminate.
        rewrite !fmap_cons, fmap_app, Hcp. reflexivity.
    + rewrite compose_fallback by assumption.
      destruct (concatenate_run images
        (observed [mkProgress detecting 30 "Detecting features..."]
           (final (load_frames br cv (length frames) 0 frames []
              (observed [mkProgress preprocessing 10 "Preprocessing frames..."]
                 (observed [mkProgress loading 0 "Loading frames..."]
                    (mkHook true (current s) None (pendingResets s))))))))
        as (evc & -> & Hcc).
      exists (length frames), true, true. cbn [outcome trace fst snd].
      repeat split; trivial; try lia.
      rewrite !fmap_cons, fmap_app, Hcp, !fmap_cons, fmap_app, Hcc, Hlen. reflexivity.
  - exists k, false, false. cbn [outcome trace fst snd is_Return].
    repeat split; trivial; try lia; try discriminate.
    rewrite !fmap_cons, Hcp. cbn. now rewrite app_nil_r.
Qed.

Lemma bounded_nil lo hi : bounded lo hi [].
Proof. split; [intros i j a b _ Hi; now rewrite lookup_nil in Hi | constructor]. Qed.

Lemma bounded_replicate k st : bounded (stage_index st) (stage_index st) (replicate k st).
Proof.
  split.
  - intros i j a b _ Hi Hj.
    apply lookup_replicate in Hi as [-> _]. apply lookup_replicate in Hj as [-> _]. lia.
  - apply Forall_replicate. lia.
Qed.

Lemma bounded_app lo hi a b c d l1 l2 :
  bounded a b l1 -> bounded c d l2 ->
  b <= c -> lo <= a -> lo <= c -> b <= hi -> d <= hi ->
  bounded lo hi (l1 ++ l2).
Proof.
  intros [Ha1 Hb1] [Ha2 Hb2] Hbc Hla Hlc Hbh Hdh. split.
  - intros i j x y Hij Hi Hj.
    apply lookup_app_Some in Hi as [Hi | [Hi1 Hi]];
      apply lookup_app_Some in Hj as [Hj | [Hj1 Hj]].
    + eapply Ha1; eauto.
    + rewrite Forall_forall in Hb1, Hb2.
      pose proof (Hb1 x (list_elem_of_lookup_2 _ _ _ Hi)).
      pose proof (Hb2 y (list_elem_of_lookup_2 _ _ _ Hj)). lia.
    + apply lookup_lt_Some in Hj. lia.
    + eapply (Ha2 (i - length l1) (j - length l1)); eauto. lia.
  - apply Forall_app. split; eapply Forall_impl; eauto; cbn; intros; lia.
Qed.

Lemma fst_ramp {A} (st : Stage) (f : nat -> A) i k :
  fst <$> ((fun j => (st, f j)) <$> seq i k) = replicate k st.
Proof.
  revert i. induction k as [|k IH]; intros i; cbn; [reflexivity|]. now rewrite IH.
Qed.

Lemma stage_of_checkpoint (evs : list StitchProgress) : stage <$> evs = fst <$> (checkpoint <$> evs).
Proof. now rewrite <- list_fmap_compose. Qed.

Lemma stitchFrames_stages br cv frames s :
  2 <= length frames ->
  exists (k : nat) (d c : bool),
    (is_Return (outcome (stitchFrames br true (Some cv) frames s)) = true ->
     d = true /\ c = true) /\
    stage <$> trace (stitchFrames br true (Some cv) frames s) =
      [loading; preprocessing] ++ replicate k preprocessing ++
      (if d then
         detecting ::
         (if stitcher_available cv then [] else replicate (S (length frames)) warping) ++
         (if c then [blending; complete] else [])
       else []).
Proof.
  intros Hn.
  destruct (stitchFrames_checkpoints br cv frames s Hn)
    as (k & d & c & _ & _ & Hcd & _ & Hret & Hshape).
  exists k, d, c. split; [intros H; split; auto|].
  rewrite stage_of_checkpoint, Hshape.
  rewrite fmap_app, fmap_app, fst_ramp. f_equal. f_equal.
  destruct d; [|reflexivity]. rewrite fmap_cons, fmap_app. cbn [fst]. f_equal.
  f_equal; [|now destruct c].
  destruct (stitcher_available cv); [reflexivity|].
  rewrite fmap_cons, fst_ramp. reflexivity.
Qed.

Lemma shape_bounded k n (d c av : bool) :
  bounded 0 6
    ([loading; preprocessing] ++ replicate k preprocessing ++
     (if d then
        detecting :: (if av then [] else replicate (S n) warping) ++
        (if c then [blending; complete] else [])
      else [])).
Proof.
  change [loading; preprocessing] with (replicate 1 loading ++ replicate 1 preprocessing).
  rewrite <- app_assoc.
  eapply (bounded_app 0 6 0 0 1 6); [apply (bounded_replicate 1 loading)| |cbn; lia..].
  eapply (bounded_app 1 6 1 1 1 6); [apply (bounded_replicate 1 preprocessing)| |cbn; lia..].
  eapply (bounded_app 1 6 1 1 2 6); [apply (bounded_replicate k preprocessing)| |cbn; lia..].
  destruct d; [|apply bounded_nil].
  change (detecting :: ?l) with (replicate 1 detecting ++ l).
  eapply (bounded_app 2 6 2 2 4 6); [apply (bounded_replicate 1 detecting)| |cbn; lia..].
  eapply (bounded_app 4 6 4 4 5 6); [| |cbn; lia..].
  - destruct av; [apply bounded_nil|apply (bounded_replicate (S n) warping)].
  - destruct c.
    + change [blending; complete] with (replicate 1 blending ++ replicate 1 complete).
      eapply (bounded_app 5 6 5 5 6 6);
        [apply (bounded_replicate 1 blending)|apply (bounded_replicate 1 complete)|cbn; lia..].
    + apply bounded_nil.
Qed.

Lemma stitchFrames_rejected br isLoaded cv frames s :
  isLoaded = false \/ cv = None \/ length frames < 2 ->
  trace (stitchFrames br isLoaded cv frames s) = [] /\
  is_Return (outcome (stitchFrames br isLoaded cv frames s)) = false.
Proof.
  intros H. unfold stitchFrames. destruct isLoaded, cv as [engine|]; try (now split).
  - destruct H as [H|[H|H]]; try discriminate.
    replace (length frames <? 2) with true by (symmetry; apply Nat.ltb_lt; lia). now split.
Qed.

Lemma ratio_bounds j n : j < n -> (0 <= num j / num n)%Q /\ (num j / num n < 1)%Q.
Proof.
  intros Hjn. assert (0 < num n)%Q as Hpos.
  { unfold num. change 0%Q with (inject_Z 0). rewrite <- Zlt_Qlt. lia. }
  split.
  - apply Qle_shift_div_l; [exact Hpos|]. rewrite Qmult_0_l.
    unfold num. change 0%Q with (inject_Z 0). rewrite <- Zle_Qle. lia.
  - apply Qlt_shift_div_r; [exact Hpos|]. rewrite Qmult_1_l.
    unfold num. rewrite <- Zlt_Qlt. lia.
Qed.

Lemma ratio_mono i j n : i <= j -> (num i / num n <= num j / num n)%Q.
Proof.
  intros Hij. unfold Qdiv. apply Qmult_le_compat_r.
  - unfold num. rewrite <- Zle_Qle. lia.
  - apply Qinv_le_0_compat. unfold num. change 0%Q with (inject_Z 0).
    rewrite <- Zle_Qle. lia.
Qed.


Lemma ratio_nonneg j n : (0 <= num j / num n)%Q.
Proof.
  apply Qmult_le_0_compat.
  - unfold num. change 0%Q with (inject_Z 0). rewrite <- Zle_Qle. lia.
  - apply Qinv_le_0_compat. unfold num. change 0%Q with (inject_Z 0).
    rewrite <- Zle_Qle. lia.
Qed.

(** rounding stays between two doubles *)
Lemma round_between lo hi q :
  Binary64.round lo = lo -> Binary64.round hi = hi ->
  (0 <= lo)%Q -> (lo <= q <= hi)%Q -> (lo <= Binary64.round q <= hi)%Q.
Proof.
  intros Hlo Hhi H0 [H1 H2]. split.
  - apply Qle_trans with (Binary64.round lo); [rewrite Hlo; apply Qle_refl|].
    now apply round_mono.
  - apply Qle_trans with (Binary64.round hi); [|rewrite Hhi; apply Qle_refl].
    apply round_mono; [eapply Qle_trans; eauto | exact H2].
Qed.

Lemma fraction_bounds j n : j < n -> (0 <= Binary64.div (num j) (num n) <= 1)%Q.
Proof.
  intros Hjn. destruct (ratio_bounds j n Hjn) as [H0 H1].
  apply round_between; [reflexivity | reflexivity | apply Qle_refl |].
  split; [exact H0 | now apply Qlt_le_weak].
Qed.

Lemma fraction_near j n :
  j < n ->
  (num j / num n - 2 ^ (-54) <= Binary64.div (num j) (num n) <= num j / num n + 2 ^ (-54))%Q.
Proof.
  intros Hjn. destruct (ratio_bounds j n Hjn) as [H0 H1].
  apply (round_near (num j / num n) (-1)); [exact H0 | exact H1 | lia].
Qed.

Lemma fraction_mono i j n :
  i <= j -> (Binary64.div (num i) (num n) <= Binary64.div (num j) (num n))%Q.
Proof. intros Hij. apply round_mono; [apply ratio_nonneg | now apply ratio_mono]. Qed.

Lemma fraction_zero n : Binary64.div (num 0) (num n) = 0%Q.
Proof. apply round_zero. unfold Qdiv. apply Qmult_0_l. Qed.

Lemma load_percent_start n : load_percent 0 n = 10%Q.
Proof. unfold load_percent. rewrite fraction_zero. vm_compute. reflexivity. Qed.

Lemma place_percent_start n : place_percent 0 n = 50%Q.
Proof. unfold place_percent. rewrite fraction_zero. vm_compute. reflexivity. Qed.

Lemma load_percent_bounds j n : j < n -> (10 <= load_percent j n <= 30)%Q.
Proof.
  intros Hjn. destruct (fraction_bounds j n Hjn) as [H0 H1].
  set (r := Binary64.div (num j) (num n)) in *.
  assert (0 <= Binary64.mul r 20 <= 20)%Q as [Hy0 Hy1].
  { apply round_between; [reflexivity | reflexivity | apply Qle_refl | split; lra]. }
  unfold load_percent. fold r. set (y := Binary64.mul r 20) in *.
  apply round_between; [reflexivity | reflexivity | discriminate | split; lra].
Qed.

Lemma place_percent_bounds j n : j < n -> (50 <= place_percent j n <= 80)%Q.
Proof.
  intros Hjn. destruct (fraction_bounds j n Hjn) as [H0 H1].
  set (r := Binary64.div (num j) (num n)) in *.
  assert (0 <= Binary64.mul r 30 <= 30)%Q as [Hy0 Hy1].
  { apply round_between; [reflexivity | reflexivity | apply Qle_refl | split; lra]. }
  unfold place_percent. fold r. set (y := Binary64.mul r 30) in *.
  apply round_between; [reflexivity | reflexivity | discriminate | split; lra].
Qed.

Lemma percent_mono lo span i j n :
  (0 <= lo)%Q -> (0 <= span)%Q -> i <= j ->
  (Binary64.add lo (Binary64.mul (Binary64.div (num i) (num n)) span)
   <= Binary64.add lo (Binary64.mul (Binary64.div (num j) (num n)) span))%Q.
Proof.
  intros Hlo Hspan Hij. pose proof (fraction_mono i j n Hij) as Hr.
  assert (0 <= Binary64.div (num i) (num n))%Q as Hi by apply round_nonneg, ratio_nonneg.
  set (ri := Binary64.div (num i) (num n)) in *.
  set (rj := Binary64.div (num j) (num n)) in *.
  assert (0 <= ri * span)%Q as H0 by now apply Qmult_le_0_compat.
  assert (ri * span <= rj * span)%Q as H1 by now apply Qmult_le_compat_r.
  assert (Binary64.mul ri span <= Binary64.mul rj span)%Q as Hy by now apply round_mono.
  assert (0 <= Binary64.mul ri span)%Q as Hy0 by now apply round_nonneg.
  apply round_mono; lra.
Qed.

(** the doubles reported are within 2^-46 of the exact proportion *)
Lemma load_percent_near j n :
  j < n ->
  (10 + num j / num n * 20 - 2 ^ (-46) <= load_percent j n
   <= 10 + num j / num n * 20 + 2 ^ (-46))%Q.
Proof.
  intros Hjn. destruct (fraction_bounds j n Hjn) as [H0 H1].
  destruct (fraction_near j n Hjn) as [Hr0 Hr1].
  set (q := (num j / num n)%Q) in *.
  set (r := Binary64.div (num j) (num n)) in *.
  assert (0 <= Binary64.mul r 20 <= 20)%Q as [Hy0 Hy1].
  { apply round_between; [reflexivity | reflexivity | apply Qle_refl | split; lra]. }
  destruct (round_near (r * 20) 4) as [Hm0 Hm1]; [lra | change (2 ^ (4 + 1))%Q with 32%Q; lra | lia |].
  fold (Binary64.mul r 20) in Hm0, Hm1.
  set (y := Binary64.mul r 20) in *.
  destruct (round_near (10 + y) 4) as [Ha0 Ha1]; [lra | change (2 ^ (4 + 1))%Q with 32%Q; lra | lia |].
  fold (Binary64.add 10 y) in Ha0, Ha1.
  unfold load_percent. fold r. fold y. set (p := Binary64.add 10 y) in *.
  change (2 ^ (-54))%Q with (1 # 18014398509481984)%Q in *.
  change (2 ^ (4 - 53))%Q with (1 # 562949953421312)%Q in *.
  change (2 ^ (-46))%Q with (1 # 70368744177664)%Q.
  split; lra.
Qed.

Lemma place_percent_near j n :
  j < n ->
  (50 + num j / num n * 30 - 2 ^ (-46) <= place_percent j n
   <= 50 + num j / num n * 30 + 2 ^ (-46))%Q.
Proof.
  intros Hjn. destruct (fraction_bounds j n Hjn) as [H0 H1].
  destruct (fraction_near j n Hjn) as [Hr0 Hr1].
  set (q := (num j / num n)%Q) in *.
  set (r := Binary64.div (num j) (num n)) in *.
  assert (0 <= Binary64.mul r 30 <= 30)%Q as [Hy0 Hy1].
  { apply round_between; [reflexivity | reflexivity | apply Qle_refl | split; lra]. }
  destruct (round_near (r * 30) 4) as [Hm0 Hm1]; [lra | change (2 ^ (4 + 1))%Q with 32%Q; lra | lia |].
  fold (Binary64.mul r 30) in Hm0, Hm1.
  set (y := Binary64.mul r 30) in *.
  destruct (round_near (50 + y) 6) as [Ha0 Ha1]; [lra | change (2 ^ (6 + 1))%Q with 128%Q; lra | lia |].
  fold (Binary64.add 50 y) in Ha0, Ha1.
  unfold place_percent. fold r. fold y. set (p := Binary64.add 50 y) in *.
  change (2 ^ (-54))%Q with (1 # 18014398509481984)%Q in *.
  change (2 ^ (4 - 53))%Q with (1 # 562949953421312)%Q in *.
  change (2 ^ (6 - 53))%Q with (1 # 140737488355328)%Q in *.
  change (2 ^ (-46))%Q with (1 # 70368744177664)%Q.
  split; lra.
Qed.

End ProgressTrace.

(** ** Stage order and percentages *)

Section StageOrder.
Import UseStitcher.

Lemma shape_elem st k n (d c av : bool) :
  st ∈ [loading; preprocessing] ++ replicate k preprocessing ++
       (if d then
          detecting :: (if av then [] else replicate (S n) warping) ++
          (if c then [blending; complete] else [])
        else []) ->
  st = loading \/ st = preprocessing \/
  (d = true /\ (st = detecting \/ (av = false /\ st = warping) \/
                (c = true /\ (st = blending \/ st = complete)))).
Proof.
  intros H. apply elem_of_app in H as [H|H].
  { apply elem_of_cons in H as [->|H]; [now left|].
    apply elem_of_cons in H as [->|H]; [right; now left|]. now apply elem_of_nil in H. }
  apply elem_of_app in H as [H|H].
  { apply elem_of_replicate in H as [-> _]. right; now left. }
  right; right. destruct d; [|now apply elem_of_nil in H]. split; [reflexivity|].
  apply elem_of_cons in H as [->|H]; [now left|].
  apply elem_of_app in H as [H|H].
  - right; left. destruct av; [now apply elem_of_nil in H|].
    apply elem_of_replicate in H as [-> _]. now split.
  - right; right. destruct c; [|now apply elem_of_nil in H]. split; [reflexivity|].
    apply elem_of_cons in H as [->|H]; [now left|].
    apply elem_of_cons in H as [->|H]; [now right|]. now apply elem_of_nil in H.
Qed.

(** C7, counterexample: a run over two frames on a build without the
    stitching module completes and returns a panorama, and no report of
    the [matching] stage is emitted. *)
Lemma C7_counterexample :
  is_Return (outcome (stitchFrames Demo.browser true (Some Demo.plain_cv) ["A"; "B"] Demo.idle))
    = true /\
  ~ visits (trace (stitchFrames Demo.browser true (Some Demo.plain_cv) ["A"; "B"] Demo.idle))
      matching.
Proof.
  split; [vm_compute; reflexivity|].
  assert (stage <$> trace (stitchFrames Demo.browser true (Some Demo.plain_cv) ["A"; "B"] Demo.idle)
          = [loading; preprocessing; preprocessing; preprocessing; detecting;
             warping; warping; warping; blending; complete]) as Hl
    by (vm_compute; reflexivity).
  unfold visits. rewrite Hl. intros H.
  repeat (apply elem_of_cons in H as [H|H]; [discriminate|]).
  now apply elem_of_nil in H.
Qed.

(** C7, amended: along the reports of one stitch operation the stage never
    steps back in the order loading, preprocessing, detecting, matching,
    warping, blending, complete; no report of the [matching] stage is ever
    emitted; and an operation that returns a panorama has visited loading,
    preprocessing, detecting, blending and complete, and has visited
    warping exactly when the stitching capability is unavailable (the
    concatenation path). *)
Theorem C7_stage_order br isLoaded cv frames s :
  forward (trace (stitchFrames br isLoaded cv frames s)) /\
  ~ visits (trace (stitchFrames br isLoaded cv frames s)) matching /\
  (is_Return (outcome (stitchFrames br isLoaded cv frames s)) = true ->
   visits (trace (stitchFrames br isLoaded cv frames s)) loading /\
   visits (trace (stitchFrames br isLoaded cv frames s)) preprocessing /\
   visits (trace (stitchFrames br isLoaded cv frames s)) detecting /\
   visits (trace (stitchFrames br isLoaded cv frames s)) blending /\
   visits (trace (stitchFrames br isLoaded cv frames s)) complete /\
   (forall engine, cv = Some engine ->
      (visits (trace (stitchFrames br isLoaded cv frames s)) warping
       <-> stitcher_available engine = false))).
Proof.
  destruct (decide (isLoaded = false \/ cv = None \/ length frames < 2)) as [Hearly|Hrun].
  - destruct (stitchFrames_rejected br isLoaded cv frames s Hearly) as [Ht Hr].
    unfold forward, visits. rewrite Ht, Hr.
    split; [apply (proj1 (bounded_nil 0 0))|]. split; [apply not_elem_of_nil | discriminate].
  - destruct isLoaded; [|exfalso; apply Hrun; now left].
    destruct cv as [engine|]; [|exfalso; apply Hrun; right; now left].
    assert (2 <= length frames) as Hn by (apply Nat.nlt_ge; intros H; apply Hrun; auto).
    destruct (stitchFrames_stages br engine frames s Hn) as (k & d & c & Hret & Hst).
    unfold forward, visits. rewrite Hst.
    split; [apply (proj1 (shape_bounded k (length frames) d c (stitcher_available engine)))|].
    split.
    + intros H. apply shape_elem in H.
      destruct H as [H|[H|(_ & [H|[[_ H]|(_ & [H|H])]])]]; discriminate.
    + intros Hok. destruct (Hret Hok) as [-> ->].
      split; [apply elem_of_app; left; apply list_elem_of_here|].
      split; [apply elem_of_app; left; apply list_elem_of_further, list_elem_of_here|].
      split; [apply elem_of_app; right; apply elem_of_app; right; apply list_elem_of_here|].
      split; [apply elem_of_app; right; apply elem_of_app; right; apply list_elem_of_further,
                elem_of_app; right; apply list_elem_of_here|].
      split; [apply elem_of_app; right; apply elem_of_app; right; apply list_elem_of_further,
                elem_of_app; right; apply list_elem_of_further, list_elem_of_here|].
      intros engine' [= <-]. split.
      * intros H.
        apply (shape_elem warping k (length frames) true true (stitcher_available engine)) in H.
        destruct H as [H|[H|(_ & [H|[[Hav _]|(_ & [H|H])]])]]; (discriminate || exact Hav).
      * intros Hav. rewrite Hav.
        apply elem_of_app; right; apply elem_of_app; right.
        apply list_elem_of_further, elem_of_app; left. apply list_elem_of_here.
Qed.

Lemma C7_witness :
  forward (trace (stitchFrames Demo.browser true (Some Demo.plain_cv) ["A"; "B"] Demo.idle)) /\
  visits (trace (stitchFrames Demo.browser true (Some Demo.plain_cv) ["A"; "B"] Demo.idle)) complete /\
  visits (trace (stitchFrames Demo.browser true (Some Demo.plain_cv) ["A"; "B"] Demo.idle)) warping.
Proof.
  destruct (C7_stage_order Demo.browser true (Some Demo.plain_cv) ["A"; "B"] Demo.idle)
    as (Hf & _ & Hs).
  destruct (Hs eq_refl) as (_ & _ & _ & _ & Hc & Hw).
  split; [exact Hf|]. split; [exact Hc|].
  apply (Hw Demo.plain_cv eq_refl). reflexivity.
Defined.

(** C8: with the engine loaded and at least two frames, the (stage,
    percentage) pairs reported are: loading at 0; preprocessing at 10 and
    then at the double 10 + (j / n) * 20 for each loaded frame
    j = 0, 1, ...; detecting at 30; on the concatenation path warping at
    50 and then at the double 50 + (j / n) * 30 for each placed frame
    j = 0 .. n-1; blending at 80; complete at 100 -- cut short where the
    operation fails, and in full when it returns. The proportional
    values start at 10 and at 50, stay within [10, 30] and [50, 80], are
    within 2^-46 of the exact proportions 10 + 20 j / n and
    50 + 30 j / n, and do not decrease with j. *)
Theorem C8_percentages br cv frames s :
  2 <= length frames ->
  (exists (k : nat) (d c : bool),
     k <= length frames /\
     (is_Return (outcome (stitchFrames br true (Some cv) frames s)) = true ->
      k = length frames /\ d = true /\ c = true) /\
     checkpoint <$> trace (stitchFrames br true (Some cv) frames s) =
       [(loading, 0%Q); (preprocessing, 10%Q)] ++
       ((fun j => (preprocessing, load_percent j (length frames))) <$> seq 0 k) ++
       (if d then
          (detecting, 30%Q) ::
          (if stitcher_available cv then []
           else (warping, 50%Q) ::
                ((fun j => (warping, place_percent j (length frames)))
                   <$> seq 0 (length frames))) ++
          (if c then [(blending, 80%Q); (complete, 100%Q)] else [])
        else [])) /\
  load_percent 0 (length frames) = 10%Q /\
  place_percent 0 (length frames) = 50%Q /\
  (forall j, j < length frames ->
     (10 <= load_percent j (length frames) <= 30)%Q /\
     (50 <= place_percent j (length frames) <= 80)%Q /\
     (10 + num j / num (length frames) * 20 - 2 ^ (-46) <= load_percent j (length frames)
      <= 10 + num j / num (length frames) * 20 + 2 ^ (-46))%Q /\
     (50 + num j / num (length frames) * 30 - 2 ^ (-46) <= place_percent j (length frames)
      <= 50 + num j / num (length frames) * 30 + 2 ^ (-46))%Q) /\
  (forall i j, i <= j ->
     (load_percent i (length frames) <= load_percent j (length frames))%Q /\
     (place_percent i (length frames) <= place_percent j (length frames))%Q).
Proof.
  intros Hn. split; [|split; [|split; [|split]]].
  - destruct (stitchFrames_checkpoints br cv frames s Hn)
      as (k & d & c & Hk & Hdk & Hcd & _ & Hret & Hshape).
    exists k, d, c. split; [exact Hk|]. split; [|exact Hshape].
    intros Hok. pose proof (Hret Hok) as Hc. pose proof (Hcd Hc) as Hd. auto.
  - apply load_percent_start.
  - apply place_percent_start.
  - intros j Hj.
    split; [now apply load_percent_bounds|]. split; [now apply place_percent_bounds|].
    split; [now apply load_percent_near | now apply place_percent_near].
  - intros i j Hij. split; apply percent_mono; (discriminate || assumption).
Qed.

(** The machine's binary64 operations give the doubles of [Binary64]: the
    percentages for 1 to 64 frames, and roundings at the edges of the
    format. *)
Lemma hardware_percentages :
  forallb Hardware.agree (seq 1 64) = true /\ forallb id Hardware.roundings = true.
Proof. split; vm_compute; reflexivity. Qed.

Lemma C8_witness :
  checkpoint <$> trace (stitchFrames Demo.browser true (Some Demo.plain_cv) ["A"; "B"; "A"] Demo.idle)
  = [(loading, 0%Q); (preprocessing, 10%Q);
     (preprocessing, 10%Q);
     (preprocessing, (2345624805922133 # 140737488355328)%Q);
     (preprocessing, (6567749456581973 # 281474976710656)%Q);
     (detecting, 30%Q); (warping, 50%Q);
     (warping, 50%Q); (warping, 60%Q); (warping, 70%Q);
     (blending, 80%Q); (complete, 100%Q)] /\
  (10 <= load_percent 2 3 <= 30)%Q.
Proof.
  destruct (C8_percentages Demo.browser Demo.plain_cv ["A"; "B"; "A"] Demo.idle)
    as ((k & d & c & _ & Hok & Hshape) & _ & _ & Hbounds & _).
  - cbn; lia.
  - split.
    + destruct (Hok ltac:(vm_compute; reflexivity)) as (-> & -> & ->).
      rewrite Hshape. vm_compute. reflexivity.
    + apply (Hbounds 2). cbn; lia.
Defined.
End StageOrder.

(** ** The capture loop and its post-condition *)

Section CaptureRuns.
Import UseCamera PanoramaCapture.

Lemma capture_loop_run camera frameCount interval : forall todo i acc s,
  exists s' t,
    capture_loop camera frameCount interval todo i acc s
    = (Return (acc ++ omap truthy ((fun j => captureFrame (camera j)) <$> seq i todo)), s', t) /\
    List.filter is_callback t = [] /\
    List.filter is_capture_call t = CaptureFrame <$> seq i todo /\
    isCapturing s' = isCapturing s.
Proof.
  induction todo as [|todo IH]; intros i acc s.
  - exists s, []. cbn. now rewrite app_nil_r.
  - cbn [capture_loop seq fmap list_fmap omap list_omap].
    unfold mbind, M_bind, bind, emit, setFrames, setProgress, sleep, modify, emit, mret, M_ret, ret.
    destruct (truthy (captureFrame (camera i))) as [frame|];
      destruct (i <? frameCount - 1); cbn -[Nat.ltb Nat.sub];
      match goal with
      | |- context [capture_loop camera frameCount interval todo (S i) ?a ?s0] =>
          destruct (IH (S i) a s0) as (s' & t & -> & Hcb & Hcc & Hcap)
      end;
      eexists; eexists; (split; [rewrite <- ?app_assoc; reflexivity|]);
      cbn; rewrite Hcb, Hcc, Hcap; repeat split; reflexivity.
Qed.

Lemma capture_session_run camera duration frameCount s :
  exists s' t,
    capture_loop camera frameCount (Binary64.div duration (num frameCount)) frameCount 0 []
      (mkCapture true 0 None [])
    = (Return (omap truthy (shots camera frameCount)), s', t) /\
    List.filter is_callback t = [] /\
    List.filter is_capture_call t = CaptureFrame <$> seq 0 frameCount /\
    capture_session camera duration frameCount s
    = (Return tt,
       mkCapture false (progress s') (countdown s') (frames s'),
       [Sleep 1000; Sleep 1000; Sleep 1000] ++ t ++
       [if 2 <=? length (omap truthy (shots camera frameCount))
        then OnFramesCaptured (omap truthy (shots camera frameCount))
        else OnError "Failed to capture enough frames"]).
Proof.
  destruct (capture_loop_run camera frameCount (Binary64.div duration (num frameCount)) frameCount 0 []
              (mkCapture true 0 None [])) as (s' & t & Hrun & Hcb & Hcc & Hcap).
  cbn [app] in Hrun. exists s', t. split; [exact Hrun|]. split; [exact Hcb|]. split; [exact Hcc|].
  unfold capture_session.
  unfold mbind, M_bind, bind, emit, setIsCapturing, setFrames, setProgress, setCountdown,
    countdown_loop, sleep, modify, emit, mret, M_ret, ret.
  cbn -[Nat.leb capture_loop].
  unfold mbind, M_bind, bind, setCountdown, modify. cbn -[Nat.leb capture_loop].
  rewrite Hrun. cbn -[Nat.leb].
  unfold shots. destruct (2 <=? _); reflexivity.
Qed.

Lemma length_omap_le {A B} (f : A -> option B) (l : list A) : length (omap f l) <= length l.
Proof. induction l as [|x l IH]; cbn; [lia|]. destruct (f x); cbn; lia. Qed.


Lemma omap_agree {A B} (f g : A -> option B) (l : list A) :
  Forall (fun x => f x = g x) l -> omap f l = omap g l.
Proof.
  induction 1 as [|x l Hx _ IH]; cbn; [reflexivity|]. now rewrite Hx, IH.
Qed.

Lemma truthy_id (shot : option string) : shot <> Some "" -> truthy shot = shot.
Proof.
  destruct shot as [f|]; [|reflexivity]. cbn. intros Hne.
  destruct (String.eqb f "") eqn:E; [|reflexivity].
  apply String.eqb_eq in E. now subst.
Qed.

(** C5: for every frame count and interval, the capture loop calls
    [captureFrame] exactly once per slot, in slot order, and yields the
    frames of the calls that passed the [if (frame)] test, in that order:
    at most [frameCount] of them. No call returning the empty string,
    that is every non-null result in order; and when every call returns
    a frame, it is all [frameCount] of them. *)
Theorem C5_capture_sequence camera interval frameCount s :
  outcome (capture_loop camera frameCount interval frameCount 0 [] s)
    = Return (omap truthy (shots camera frameCount)) /\
  List.filter is_capture_call (trace (capture_loop camera frameCount interval frameCount 0 [] s))
    = CaptureFrame <$> seq 0 frameCount /\
  length (omap truthy (shots camera frameCount)) <= frameCount /\
  (Forall (fun shot => shot <> Some "") (shots camera frameCount) ->
   omap truthy (shots camera frameCount) = omap id (shots camera frameCount)) /\
  (forall fs, shots camera frameCount = Some <$> fs -> Forall (fun f => f <> "") fs ->
   omap truthy (shots camera frameCount) = fs /\
   length (omap truthy (shots camera frameCount)) = frameCount).
Proof.
  destruct (capture_loop_run camera frameCount interval frameCount 0 [] s)
    as (s' & t & Hrun & _ & Hcc & _).
  rewrite Hrun. cbn [outcome trace fst snd app].
  assert (length (shots camera frameCount) = frameCount) as Hlen
    by (unfold shots; now rewrite length_fmap, length_seq).
  split; [reflexivity|]. split; [exact Hcc|].
  split; [rewrite <- Hlen at 2; apply length_omap_le|].
  split.
  - intros Hne. apply omap_agree. eapply Forall_impl; [exact Hne|].
    intros shot Hshot. now apply truthy_id.
  - intros fs Hfs Hne.
    assert (omap truthy (shots camera frameCount) = fs) as Heq.
    { rewrite Hfs. clear Hfs. induction Hne as [|f fs Hf _ IH]; cbn; [reflexivity|].
      destruct (String.eqb f "") eqn:E; [apply String.eqb_eq in E; contradiction|].
      now rewrite IH. }
    split; [exact Heq|]. rewrite Heq, <- Hlen, Hfs. now rewrite length_fmap.
Qed.

Lemma C5_witness :
  outcome (capture_loop Demo.steady_camera 18 (Binary64.div 12000 (num 18)) 18 0 [] Demo.at_rest)
    = Return ((fun i => "data:image/jpeg;base64," +:+ pretty i) <$> seq 0 18) /\
  length (omap truthy (shots Demo.steady_camera 18)) = 18 /\
  omap truthy (shots Demo.slow_camera 18) = omap id (shots Demo.slow_camera 18).
Proof.
  destruct (C5_capture_sequence Demo.steady_camera (Binary64.div 12000 (num 18)) 18 Demo.at_rest)
    as (Hrun & _ & _ & _ & Hall).
  destruct (Hall ((fun i => "data:image/jpeg;base64," +:+ pretty i) <$> seq 0 18)) as [Heq Hlen].
  - vm_compute; reflexivity.
  - apply Forall_forall. intros f Hf.
    apply list_elem_of_fmap in Hf as (i & -> & _). cbn -[pretty]. discriminate.
  - split; [now rewrite Hrun, Heq|]. split; [exact Hlen|].
    apply (proj1 (proj2 (proj2 (proj2
             (C5_capture_sequence Demo.slow_camera 1%Q 18 Demo.at_rest))))).
    apply Forall_forall. intros shot Hshot.
    apply list_elem_of_fmap in Hshot as (i & -> & _).
    unfold Demo.slow_camera, Demo.snap, captureFrame.
    destruct (i mod 3 =? 0); cbn -[pretty]; discriminate.
Defined.

(** C6: once the capture loop has finished, the handler clears
    [isCapturing] and calls exactly one of its two callbacks: with two or
    more captured frames it hands the sequence to [onFramesCaptured];
    with fewer it calls [onError] with 'Failed to capture enough frames'
    and no sequence is delivered. *)
Theorem C6_post_condition camera duration frameCount s :
  outcome (capture_session camera duration frameCount s) = Return tt /\
  isCapturing (final (capture_session camera duration frameCount s)) = false /\
  (2 <= length (omap truthy (shots camera frameCount)) ->
   List.filter is_callback (trace (capture_session camera duration frameCount s))
     = [OnFramesCaptured (omap truthy (shots camera frameCount))]) /\
  (length (omap truthy (shots camera frameCount)) < 2 ->
   List.filter is_callback (trace (capture_session camera duration frameCount s))
     = [OnError "Failed to capture enough frames"]).
Proof.
  destruct (capture_session_run camera duration frameCount s)
    as (s' & t & _ & Hcb & _ & Hrun).
  rewrite Hrun. cbn [outcome final trace fst snd isCapturing].
  split; [reflexivity|]. split; [reflexivity|].
  rewrite !List.filter_app, Hcb. cbn [List.filter is_callback app].
  split; intros Hlen.
  - replace (2 <=? _) with true by (symmetry; apply Nat.leb_le; lia). reflexivity.
  - replace (2 <=? _) with false by (symmetry; apply Nat.leb_gt; lia). reflexivity.
Qed.

Lemma C6_witness :
  List.filter is_callback (trace (startCapture true Demo.steady_camera Demo.at_rest))
    = [OnFramesCaptured (omap truthy (shots Demo.steady_camera 18))] /\
  List.filter is_callback (trace (startCapture true Demo.stalled_camera Demo.at_rest))
    = [OnError "Failed to capture enough frames"].
Proof.
  split.
  - apply (proj1 (proj2 (proj2 (C6_post_condition Demo.steady_camera 12000 18 Demo.at_rest)))).
    vm_compute. lia.
  - apply (proj2 (proj2 (proj2 (C6_post_condition Demo.stalled_camera 12000 18 Demo.at_rest)))).
    vm_compute. lia.
Defined.

End CaptureRuns.
